(** * m3bridge: SMTP-to-Graph gateway, token cache and PKCE generation

    A shallow embedding of the Go sources
    - [internal/smtp/handler.go]  (session, MIME extraction, quoted-printable),
    - [internal/auth/token.go]    (token record, expiry, cache load/save),
    - the authenticator of package [auth] ([generatePKCE]),
    followed by the properties proved about them.  Logging has no effect on
    the state or the results and is left out.

    Go strings are byte sequences: they are modelled by [string] (a list of
    8-bit [ascii] characters); byte-indexed loops run over [list ascii]. *)

From Stdlib Require Import ZArith NArith List String Ascii Bool Lia.
From Stdlib Require Import DecimalString DecimalZ DecimalPos.
From stdpp Require Import gmap strings.
Import ListNotations.

Local Open Scope string_scope.
Local Open Scope list_scope.

(* ===================================================================== *)
(** * Go builtins and standard-library helpers used by the sources        *)
(* ===================================================================== *)

Module gostd.

(** A Go [error], by its message, and the result of a fallible call. *)
Definition error := string.

Inductive result (A : Type) : Type :=
| Ok (a : A)
| Err (e : error).
Arguments Ok {A} a.
Arguments Err {A} e.

Definition LF : ascii := "010".
Definition CR : ascii := "013".
Definition EQ : ascii := "=".

(** [[]byte(s)] and [string(b)]. *)
Definition bytes (s : string) : list ascii := list_ascii_of_string s.
Definition str (b : list ascii) : string := string_of_list_ascii b.

(** [strings.HasPrefix(s, prefix)]. *)
Definition HasPrefix (s p : string) : bool := String.prefix p s.

Fixpoint bytes_eqb (a b : list ascii) : bool :=
  match a, b with
  | [], [] => true
  | x :: a', y :: b' => Ascii.eqb x y && bytes_eqb a' b'
  | _, _ => false
  end.

(** [strings.HasSuffix] and [strings.TrimSuffix] on the bytes of a string. *)
Definition HasSuffix (s suf : list ascii) : bool :=
  (length suf <=? length s)%nat
  && bytes_eqb (skipn (length s - length suf) s) suf.

Definition TrimSuffix (s suf : list ascii) : list ascii :=
  if HasSuffix s suf then firstn (length s - length suf) s else s.

(** [strings.TrimRight(s, cutset)]: drops every trailing byte that belongs
    to the cutset. *)
Fixpoint TrimRight (s cutset : list ascii) : list ascii :=
  match s with
  | [] => []
  | c :: s' =>
      match TrimRight s' cutset with
      | [] => if existsb (Ascii.eqb c) cutset then [] else [c]
      | t => c :: t
      end
  end.

(** [bufio.Reader.ReadString('\n')] over a [strings.Reader]: the bytes up to
    and including the first newline, the unread remainder, and whether the
    end of input was hit before a newline ([err == io.EOF]). *)
Fixpoint ReadString_LF (r : list ascii) : list ascii * list ascii * bool :=
  match r with
  | [] => ([], [], true)
  | c :: r' =>
      if Ascii.eqb c LF then ([c], r', false)
      else let '(line, rest, eof) := ReadString_LF r' in (c :: line, rest, eof)
  end.

(** Value of a hexadecimal digit (either case), as [fmt]'s scanner reads it. *)
Definition hexval (c : ascii) : option N :=
  let n := N_of_ascii c in
  if (48 <=? n)%N && (n <=? 57)%N then Some (n - 48)%N
  else if (65 <=? n)%N && (n <=? 70)%N then Some (n - 55)%N
  else if (97 <=? n)%N && (n <=? 102)%N then Some (n - 87)%N
  else None.

Definition isHex (c : ascii) : bool :=
  match hexval c with Some _ => true | None => false end.

(** The ASCII white space that [fmt.Sscanf] skips before a verb (a newline
    is not skipped: it ends the scan with an error). *)
Definition isScanSpace (c : ascii) : bool :=
  let n := N_of_ascii c in
  (n =? 9)%N || (n =? 11)%N || (n =? 12)%N || (n =? 13)%N || (n =? 32)%N.

(** [var b byte; fmt.Sscanf(string([]byte{c1, c2}), "%02X", &b)]: the value
    left in [b].  The scanner skips leading blanks, then reads at most two
    hexadecimal digits; when it finds none it reports an error (which the
    caller drops) and [b] keeps its zero value. *)
Definition Sscanf_02X (c1 c2 : ascii) : ascii :=
  match hexval c1 with
  | Some h1 =>
      match hexval c2 with
      | Some h2 => ascii_of_N (16 * h1 + h2)
      | None => ascii_of_N h1
      end
  | None =>
      if isScanSpace c1 then
        match hexval c2 with
        | Some h2 => ascii_of_N h2
        | None => zero
        end
      else zero
  end.

(** ** encoding/base64 *)

Definition encodeStd : list ascii :=
  bytes "ABCDEFGHIJKLMNOPQRSTUVWXYZabcdefghijklmnopqrstuvwxyz0123456789+/".
Definition encodeURL : list ascii :=
  bytes "ABCDEFGHIJKLMNOPQRSTUVWXYZabcdefghijklmnopqrstuvwxyz0123456789-_".

(** The character of a 6-bit value. *)
Definition b64char (alphabet : list ascii) (v : N) : ascii :=
  nth (N.to_nat (N.land v 63)) alphabet zero.

(** [Encoding.Encode]: three source bytes become four characters; a
    remainder of one or two bytes becomes two or three characters, followed
    by [pad] up to four when the encoding pads. *)
Fixpoint b64encode (alphabet : list ascii) (pad : list ascii)
         (src : list ascii) : list ascii :=
  match src with
  | [] => []
  | [a] =>
      let v := N.shiftl (N_of_ascii a) 16 in
      [b64char alphabet (N.shiftr v 18); b64char alphabet (N.shiftr v 12)]
        ++ pad ++ pad
  | [a; b] =>
      let v := N.lor (N.shiftl (N_of_ascii a) 16) (N.shiftl (N_of_ascii b) 8) in
      [b64char alphabet (N.shiftr v 18); b64char alphabet (N.shiftr v 12);
       b64char alphabet (N.shiftr v 6)] ++ pad
  | a :: b :: c :: rest =>
      let v := N.lor (N.lor (N.shiftl (N_of_ascii a) 16)
                            (N.shiftl (N_of_ascii b) 8)) (N_of_ascii c) in
      b64char alphabet (N.shiftr v 18) :: b64char alphabet (N.shiftr v 12)
        :: b64char alphabet (N.shiftr v 6) :: b64char alphabet v
        :: b64encode alphabet pad rest
  end.

(** [base64.RawURLEncoding.EncodeToString]: URL-safe alphabet, no padding. *)
Definition RawURLEncoding_EncodeToString (src : list ascii) : string :=
  str (b64encode encodeURL [] src).

(** The 6-bit value of a character of the alphabet. *)
Fixpoint b64index (alphabet : list ascii) (c : ascii) : option N :=
  match alphabet with
  | [] => None
  | x :: rest =>
      if Ascii.eqb x c then Some 0%N
      else option_map N.succ (b64index rest c)
  end.

(** Decoding of the quanta of a padded encoding, line breaks already
    removed: groups of four characters, the last of which may end in one or
    two [=]; anything else is corrupt input. *)
Fixpoint b64quanta (alphabet : list ascii) (l : list ascii)
  : option (list ascii) :=
  match l with
  | [] => Some []
  | c1 :: c2 :: c3 :: c4 :: rest =>
      match b64index alphabet c1, b64index alphabet c2 with
      | Some v1, Some v2 =>
          let hi := N.lor (N.shiftl v1 18) (N.shiftl v2 12) in
          match b64index alphabet c3, b64index alphabet c4 with
          | Some v3, Some v4 =>
              let v := N.lor hi (N.lor (N.shiftl v3 6) v4) in
              option_map
                (fun tl => ascii_of_N (N.shiftr v 16 mod 256)
                             :: ascii_of_N (N.shiftr v 8 mod 256)
                             :: ascii_of_N (v mod 256) :: tl)
                (b64quanta alphabet rest)
          | Some v3, None =>
              let v := N.lor hi (N.shiftl v3 6) in
              match rest with
              | [] =>
                  if Ascii.eqb c4 EQ
                  then Some [ascii_of_N (N.shiftr v 16 mod 256);
                             ascii_of_N (N.shiftr v 8 mod 256)]
                  else None
              | _ => None
              end
          | None, _ =>
              match rest with
              | [] =>
                  if Ascii.eqb c3 EQ && Ascii.eqb c4 EQ
                  then Some [ascii_of_N (N.shiftr hi 16 mod 256)]
                  else None
              | _ => None
              end
          end
      | _, _ => None
      end
  | _ => None
  end.

(** [base64.StdEncoding.DecodeString]: carriage returns and newlines are
    ignored; [None] stands for a [CorruptInputError]. *)
Definition StdEncoding_DecodeString (s : string) : option string :=
  let l := List.filter (fun c => negb (Ascii.eqb c CR || Ascii.eqb c LF)) (bytes s) in
  option_map str (b64quanta encodeStd l).

(** ** crypto/sha256 *)

Module sha256.

Definition w32 (x : N) : N := (x mod 4294967296)%N.
Definition add32 (a b : N) : N := w32 (a + b).
Definition rotr (n : N) (x : N) : N :=
  N.lor (N.shiftr x n) (w32 (N.shiftl x (32 - n))).
Definition not32 (x : N) : N := (4294967295 - w32 x)%N.

Definition Ch (x y z : N) : N := N.lxor (N.land x y) (N.land (not32 x) z).
Definition Maj (x y z : N) : N :=
  N.lxor (N.lxor (N.land x y) (N.land x z)) (N.land y z).
Definition Sigma0 (x : N) : N := N.lxor (N.lxor (rotr 2 x) (rotr 13 x)) (rotr 22 x).
Definition Sigma1 (x : N) : N := N.lxor (N.lxor (rotr 6 x) (rotr 11 x)) (rotr 25 x).
Definition sigma0 (x : N) : N := N.lxor (N.lxor (rotr 7 x) (rotr 18 x)) (N.shiftr x 3).
Definition sigma1 (x : N) : N := N.lxor (N.lxor (rotr 17 x) (rotr 19 x)) (N.shiftr x 10).

(** The first 64 primes. *)
Definition primes : list N := [
  2; 3; 5; 7; 11; 13; 17; 19; 23; 29; 31; 37; 41; 43; 47; 53; 59; 61; 67; 71;
  73; 79; 83; 89; 97; 101; 103; 107; 109; 113; 127; 131; 137; 139; 149; 151;
  157; 163; 167; 173; 179; 181; 191; 193; 197; 199; 211; 223; 227; 229; 233;
  239; 241; 251; 257; 263; 269; 271; 277; 281; 283; 293; 307; 311 ]%N.

(** The integer cube root, found bit by bit from bit [k - 1] down. *)
Fixpoint cbrtBits (k : nat) (n r : N) : N :=
  match k with
  | O => r
  | S k' =>
      let r' := (r + N.shiftl 1 (N.of_nat k'))%N in
      cbrtBits k' n (if (r' * r' * r' <=? n)%N then r' else r)
  end.

(** The round constants: the first 32 bits of the fractional parts of the
    cube roots of the primes. *)
Definition K : list N :=
  Eval vm_compute in
    map (fun p => w32 (cbrtBits 36 (N.shiftl p 96) 0)) primes.

Record state : Type :=
  { ha : N; hb : N; hc : N; hd : N; he : N; hf : N; hg : N; hh : N }.

(** The first 32 bits of the fractional part of a square root. *)
Definition fracSqrt (p : N) : N := w32 (N.sqrt (N.shiftl p 64)).

(** The initial hash value, from the square roots of the first 8 primes. *)
Definition init : state :=
  Eval vm_compute in
    {| ha := fracSqrt 2; hb := fracSqrt 3; hc := fracSqrt 5; hd := fracSqrt 7;
       he := fracSqrt 11; hf := fracSqrt 13; hg := fracSqrt 17;
       hh := fracSqrt 19 |}.

(** Big-endian 32-bit words of a block. *)
Fixpoint words (block : list ascii) : list N :=
  match block with
  | a :: b :: c :: d :: rest =>
      (N_of_ascii a * 16777216 + N_of_ascii b * 65536
       + N_of_ascii c * 256 + N_of_ascii d)%N :: words rest
  | _ => []
  end.

(** The message schedule, newest word first: [n] more words after [w]. *)
Fixpoint extend (n : nat) (w : list N) : list N :=
  match n with
  | O => w
  | S n' =>
      let x :=
        add32 (add32 (sigma1 (nth 1 w 0%N)) (nth 6 w 0%N))
              (add32 (sigma0 (nth 14 w 0%N)) (nth 15 w 0%N)) in
      extend n' (x :: w)
  end.

Definition schedule (block : list ascii) : list N :=
  rev (extend 48 (rev (words block))).

Definition round (s : state) (kw : N * N) : state :=
  let '(k, w) := kw in
  let t1 := add32 (add32 (add32 (hh s) (Sigma1 (he s)))
                         (add32 (Ch (he s) (hf s) (hg s)) k)) w in
  let t2 := add32 (Sigma0 (ha s)) (Maj (ha s) (hb s) (hc s)) in
  {| ha := add32 t1 t2; hb := ha s; hc := hb s; hd := hc s;
     he := add32 (hd s) t1; hf := he s; hg := hf s; hh := hg s |}.

Definition compress (s : state) (block : list ascii) : state :=
  let r := fold_left round (combine K (schedule block)) s in
  {| ha := add32 (ha s) (ha r); hb := add32 (hb s) (hb r);
     hc := add32 (hc s) (hc r); hd := add32 (hd s) (hd r);
     he := add32 (he s) (he r); hf := add32 (hf s) (hf r);
     hg := add32 (hg s) (hg r); hh := add32 (hh s) (hh r) |}.

(** The [n] low bytes of [x], most significant first. *)
Fixpoint bigEndian (n : nat) (x : N) : list ascii :=
  match n with
  | O => []
  | S n' => bigEndian n' (x / 256) ++ [ascii_of_N (x mod 256)]
  end.

(** Padding: a [0x80] byte, zeros up to 56 modulo 64, the bit length on
    eight bytes. *)
Definition pad (msg : list ascii) : list ascii :=
  let len := length msg in
  let zeros := ((119 - len mod 64) mod 64)%nat in
  msg ++ ["128"%char] ++ repeat zero zeros
      ++ bigEndian 8 (8 * N.of_nat len).

Fixpoint blocks (fuel : nat) (s : state) (data : list ascii) : state :=
  match fuel with
  | O => s
  | S fuel' =>
      match data with
      | [] => s
      | _ => blocks fuel' (compress s (firstn 64 data)) (skipn 64 data)
      end
  end.

(** [sha256.Sum256] (equivalently [New], [Write], [Sum(nil)]). *)
Definition Sum256 (msg : list ascii) : list ascii :=
  let data := pad msg in
  let s := blocks (length data) init data in
  bigEndian 4 (ha s) ++ bigEndian 4 (hb s) ++ bigEndian 4 (hc s)
    ++ bigEndian 4 (hd s) ++ bigEndian 4 (he s) ++ bigEndian 4 (hf s)
    ++ bigEndian 4 (hg s) ++ bigEndian 4 (hh s).

End sha256.

End gostd.

(* ===================================================================== *)
(** * internal/smtp/handler.go: quoted-printable                          *)
(* ===================================================================== *)

Module smtp_qp.
Import gostd.

(** The inner loop of [decodeQuotedPrintable]:
    [for i < len(line) { if line[i] == '=' && i+2 < len(line) {...; i += 3}
                         else {buf.WriteByte(line[i]); i++} }].
    The argument is [line[i:]]; the result is what the loop appends to
    [buf]. *)
Fixpoint decodeLine (line : list ascii) : list ascii :=
  match line with
  | [] => []
  | c :: rest =>
      match rest with
      | c1 :: c2 :: rest' =>
          if Ascii.eqb c EQ then Sscanf_02X c1 c2 :: decodeLine rest'
          else c :: decodeLine rest
      | _ => c :: decodeLine rest
      end
  end.

(** The line as it stands when the inner loop starts: line terminators
    trimmed, then either the soft-break [=] removed or a newline added. *)
Definition prepareLine (line : list ascii) : list ascii :=
  let line := TrimRight line [CR; LF] in
  if HasSuffix line [EQ] then TrimSuffix line [EQ] else line ++ [LF].

(** The outer [for] loop.  [reader] is the unread input, [buf] the output
    written so far.  Each round consumes at least one byte unless it is the
    last, so [S (length reader)] rounds always suffice ([fuel] only makes
    the recursion structural). *)
Fixpoint qpLoop (fuel : nat) (reader buf : list ascii) : list ascii :=
  match fuel with
  | O => buf
  | S fuel' =>
      let '(line, reader', eof) := ReadString_LF reader in
      let buf := buf ++ decodeLine (prepareLine line) in
      if eof then buf else qpLoop fuel' reader' buf
  end.

Definition decodeQuotedPrintable (s : string) : string :=
  str (qpLoop (S (String.length s)) (bytes s) []).

(** ** The decoder as the specification words it *)

(** The lines of the input: the pieces between newlines; the piece after
    the last newline is a line too, even when it is empty. *)
Fixpoint splitLines (s : list ascii) : list (list ascii) :=
  match s with
  | [] => [[]]
  | c :: s' =>
      if Ascii.eqb c LF then [] :: splitLines s'
      else match splitLines s' with
           | l :: ls => (c :: l) :: ls
           | [] => [[c]]
           end
  end.

(** [=XX] with two hexadecimal digits stands for the byte [0xXX]; every
    other byte stands for itself. *)
Fixpoint unescape (l : list ascii) : list ascii :=
  match l with
  | [] => []
  | c :: rest =>
      match rest with
      | c1 :: c2 :: rest' =>
          match hexval c1, hexval c2 with
          | Some h1, Some h2 =>
              if Ascii.eqb c EQ then ascii_of_N (16 * h1 + h2) :: unescape rest'
              else c :: unescape rest
          | _, _ => c :: unescape rest
          end
      | _ => c :: unescape rest
      end
  end.

(** [Some l] when the line is [l] followed by a bare [=]. *)
Definition softBreak (l : list ascii) : option (list ascii) :=
  match rev l with
  | c :: r => if Ascii.eqb c EQ then Some (rev r) else None
  | [] => None
  end.

Definition specLine (line : list ascii) : list ascii :=
  let content := TrimRight line [CR; LF] in
  match softBreak content with
  | Some l => unescape l
  | None => unescape content ++ [LF]
  end.

Definition specDecode (s : string) : string :=
  str (concat (map specLine (splitLines (bytes s)))).

(** Every [=] of the line starts a two-hex-digit escape. *)
Fixpoint escapesOk (l : list ascii) : bool :=
  match l with
  | [] => true
  | c :: rest =>
      if Ascii.eqb c EQ then
        match rest with
        | c1 :: c2 :: rest' => isHex c1 && isHex c2 && escapesOk rest'
        | _ => false
        end
      else escapesOk rest
  end.

(** Every [=] of the line is the soft break that ends it or starts a
    two-hex-digit escape. *)
Definition lineOk (line : list ascii) : bool :=
  let content := TrimRight line [CR; LF] in
  match softBreak content with
  | Some l => escapesOk l
  | None => escapesOk content
  end.

Definition wellFormed (s : string) : bool :=
  forallb lineOk (splitLines (bytes s)).

End smtp_qp.

(* ===================================================================== *)
(** * internal/smtp/handler.go: session, submission, body extraction      *)
(* ===================================================================== *)

Module smtp.
Import gostd.
Export smtp_qp.

(** An [io.Reader]: the bytes it delivers, then [io.EOF] or a failure. *)
Record Reader : Type := { content : string; failure : option error }.

(** [io.ReadAll]. *)
Definition ReadAll (r : Reader) : result string :=
  match failure r with
  | Some e => Err e
  | None => Ok (content r)
  end.

(** [mail.Header] / [textproto.MIMEHeader]: [map[string][]string], keyed by
    the canonical header name. *)
Abbreviation MIMEHeader := (gmap string (list string)).

Definition Get (h : MIMEHeader) (key : string) : string :=
  match h !! key with
  | Some (v :: _) => v
  | _ => ""
  end.

Record Message : Type := { Header : MIMEHeader; Body : Reader }.
Record Part : Type := { PartHeader : MIMEHeader; PartBody : Reader }.
Record Address : Type := { Name : string; Addr : string }.

(** A [multipart.Reader], by what successive [NextPart] calls return: the
    parts in the order of the boundary lines, then [io.EOF] ([None]) or
    another error. *)
Record multipart_Reader : Type := { parts : list Part; final : option error }.

(** The functions of the Go standard library that the handler calls and
    that are not modelled further. *)
Class MailLib : Type := {
  EqualFold : string -> string -> bool;
  (** [mime.ParseMediaType]: media type, parameters, error. *)
  ParseMediaType : string -> string * gmap string string * option error;
  (** [mime.WordDecoder.DecodeHeader]. *)
  DecodeHeader : string -> result string;
  ReadMessage : Reader -> result Message;
  ParseAddressList : string -> result (list Address);
  (** [multipart.NewReader(body, boundary)]. *)
  NewReader : Reader -> string -> multipart_Reader
}.

(** The calls made on the Graph client (the external mail sender). *)
Inductive SendCall : Type :=
| SendMail (to subject body : string) (isHTML : bool)
| SendMailWithMultipleRecipients (to cc : list string)
                                 (subject body : string) (isHTML : bool).

(** [graph.Client], by the error (or [nil]) each call returns. *)
Definition Client := SendCall -> option error.

Record Backend : Type := {
  graphClient : Client;
  username : string;
  password : string
}.

Record Session : Type := {
  backend : Backend;
  from : string;
  to : list string;
  authenticated : bool
}.

Definition NewSession (b : Backend) : Session :=
  {| backend := b; from := ""; to := []; authenticated := false |}.

Definition Reset (s : Session) : Session :=
  {| backend := backend s; from := ""; to := [];
     authenticated := authenticated s |}.

Definition Logout (s : Session) : option error := None.

Definition sasl_Plain : string := "PLAIN".

Definition AuthMechanisms (s : Session) : list string := [sasl_Plain].

(** The function given to [sasl.NewPlainServer]; it reads and writes the
    session it closes over. *)
Definition plainAuthenticator (s : Session) (identity user pass : string)
  : Session * option error :=
  if negb (String.eqb user (username (backend s)))
     || negb (String.eqb pass (password (backend s)))
  then (s, Some "invalid credentials")
  else ({| backend := backend s; from := from s; to := to s;
           authenticated := true |}, None).

Definition Auth (s : Session) (mech : string)
  : result (Session -> string -> string -> string -> Session * option error) :=
  if negb (String.eqb mech sasl_Plain) then Err "unsupported auth mechanism"
  else Ok plainAuthenticator.

Definition Mail (s : Session) (from' : string) : Session * option error :=
  ({| backend := backend s; from := from'; to := to s;
      authenticated := authenticated s |}, None).

Definition Rcpt (s : Session) (to' : string) : Session * option error :=
  ({| backend := backend s; from := from s; to := to s ++ [to'];
      authenticated := authenticated s |}, None).

(** The commands that change a session, as the server hands them to it one
    after the other on a connection.  For [AUTH] the server asks [Auth] for
    the mechanism's server and feeds it the client's response, which calls
    the authenticator with the identity, user name and password sent. *)
Inductive Command : Type :=
| CmdAuth (mech identity user pass : string)
| CmdMail (sender : string)
| CmdRcpt (rcpt : string)
| CmdReset.

Definition step (s : Session) (c : Command) : Session :=
  match c with
  | CmdAuth mech identity user pass =>
      match Auth s mech with
      | Ok server => fst (server s identity user pass)
      | Err _ => s
      end
  | CmdMail sender => fst (Mail s sender)
  | CmdRcpt rcpt => fst (Rcpt s rcpt)
  | CmdReset => Reset s
  end.

Definition run (s : Session) (cs : list Command) : Session :=
  fold_left step cs s.

(** An [AUTH] command with the supported mechanism and the credentials of
    the backend. *)
Definition accepts (b : Backend) (c : Command) : bool :=
  match c with
  | CmdAuth mech _ user pass =>
      String.eqb mech sasl_Plain && String.eqb user (username b)
      && String.eqb pass (password b)
  | _ => false
  end.

Section WithLib.
Context {lib : MailLib}.

Definition decodeHeader (header : string) : string :=
  match DecodeHeader header with
  | Err _ => header
  | Ok decoded => decoded
  end.

(** The [Content-Transfer-Encoding] step shared by both extraction paths. *)
Definition decodeTransfer (encoding text : string) : string :=
  if EqualFold encoding "base64" then
    match StdEncoding_DecodeString text with
    | Some decoded => decoded
    | None => text
    end
  else if EqualFold encoding "quoted-printable" then decodeQuotedPrintable text
  else text.

Definition errNoBody : error := "本文が見つかりません".

(** The tail of [extractMultipartBody], after the loop. *)
Definition chooseBody (textPart htmlPart : string) : result (string * bool) :=
  if negb (String.eqb htmlPart "") then Ok (htmlPart, true)
  else if negb (String.eqb textPart "") then Ok (textPart, false)
  else Err errNoBody.

(** The [for] loop of [extractMultipartBody] over the results of
    [mr.NextPart()], with the two variables it updates. *)
Fixpoint partsLoop (ps : list Part) (fin : option error)
         (textPart htmlPart : string) : result (string * bool) :=
  match ps with
  | [] =>
      match fin with
      | None => chooseBody textPart htmlPart
      | Some e => Err e
      end
  | part :: rest =>
      let contentType := Get (PartHeader part) "Content-Type" in
      let '(mediaType, _, _) := ParseMediaType contentType in
      match ReadAll (PartBody part) with
      | Err _ => partsLoop rest fin textPart htmlPart
      | Ok partBytes =>
          let encoding := Get (PartHeader part) "Content-Transfer-Encoding" in
          let partText := decodeTransfer encoding partBytes in
          if HasPrefix mediaType "text/plain" then
            partsLoop rest fin partText htmlPart
          else if HasPrefix mediaType "text/html" then
            partsLoop rest fin textPart partText
          else if HasPrefix mediaType "multipart/" then
            partsLoop rest fin textPart htmlPart
          else partsLoop rest fin textPart htmlPart
      end
  end.

(** ** The parts as the specification speaks of them *)

Inductive Kind : Type := Plain | Html | Skipped.

Definition Kind_eqb (a b : Kind) : bool :=
  match a, b with
  | Plain, Plain | Html, Html | Skipped, Skipped => true
  | _, _ => false
  end.

(** The class of a part, by its own media type. *)
Definition kindOf (part : Part) : Kind :=
  let '(mediaType, _, _) := ParseMediaType (Get (PartHeader part) "Content-Type") in
  if HasPrefix mediaType "text/plain" then Plain
  else if HasPrefix mediaType "text/html" then Html
  else Skipped.

(** The decoded content of a part, when its body can be read. *)
Definition textOf (part : Part) : option string :=
  match ReadAll (PartBody part) with
  | Ok partBytes =>
      Some (decodeTransfer (Get (PartHeader part) "Content-Transfer-Encoding")
                           partBytes)
  | Err _ => None
  end.

(** The decoded contents of the readable parts of kind [k], in order. *)
Definition contents (k : Kind) (ps : list Part) : list string :=
  omap (fun p => if Kind_eqb (kindOf p) k then textOf p else None) ps.

Definition firstOf (k : Kind) (ps : list Part) : string :=
  default "" (head (contents k ps)).

Definition lastOf (k : Kind) (ps : list Part) : string :=
  default "" (last (contents k ps)).

(** What one round of the loop does to the two variables. *)
Definition stepText (p : Part) (textPart : string) : string :=
  match kindOf p, textOf p with
  | Plain, Some t => t
  | _, _ => textPart
  end.

Definition stepHtml (p : Part) (htmlPart : string) : string :=
  match kindOf p, textOf p with
  | Html, Some t => t
  | _, _ => htmlPart
  end.

Definition extractMultipartBody (body : Reader) (boundary : string)
  : result (string * bool) :=
  let mr := NewReader body boundary in
  partsLoop (parts mr) (final mr) "" "".

Definition extractBody (msg : Message) : result (string * bool) :=
  let '(mediaType, params, err) :=
    ParseMediaType (Get (Header msg) "Content-Type") in
  match err with
  | Some _ =>
      match ReadAll (Body msg) with
      | Err e => Err e
      | Ok bodyBytes => Ok (bodyBytes, false)
      end
  | None =>
      if HasPrefix mediaType "multipart/" then
        extractMultipartBody (Body msg) (default "" (params !! "boundary"))
      else
        match ReadAll (Body msg) with
        | Err e => Err e
        | Ok bodyBytes =>
            let encoding := Get (Header msg) "Content-Transfer-Encoding" in
            let bodyText := decodeTransfer encoding bodyBytes in
            Ok (bodyText, HasPrefix mediaType "text/html")
        end
  end.

(** The CC addresses [Data] collects from the [Cc] header. *)
Definition ccOf (msg : Message) : list string :=
  let ccHeader := Get (Header msg) "Cc" in
  if negb (String.eqb ccHeader "") then
    match ParseAddressList ccHeader with
    | Ok ccList => map Addr ccList
    | Err _ => []
    end
  else [].

Definition placeholderBody : string := "（本文を抽出できませんでした）".

(** The body and flag [Data] sends: the extracted ones, or the placeholder
    when extraction fails. *)
Definition bodyOf (msg : Message) : string * bool :=
  match extractBody msg with
  | Ok (body, isHTML) => (body, isHTML)
  | Err _ => (placeholderBody, false)
  end.

Definition wrapSendError (err : option error) : option error :=
  match err with
  | Some e => Some ("メール送信失敗: " +:+ e)
  | None => None
  end.

(** [Data]: the error it returns ([None] for [nil]) and the calls it makes
    on the Graph client, in order.  The session is not modified. *)
Definition Data (s : Session) (r : Reader) : option error * list SendCall :=
  match ReadMessage r with
  | Err e => (Some ("メッセージパースエラー: " +:+ e), [])
  | Ok msg =>
      let subject := decodeHeader (Get (Header msg) "Subject") in
      let ccAddresses := ccOf msg in
      let '(body, isHTML) := bodyOf msg in
      if (0 <? length ccAddresses)%nat then
        let call :=
          SendMailWithMultipleRecipients (to s) ccAddresses subject body isHTML in
        (wrapSendError (graphClient (backend s) call), [call])
      else
        match to s with
        | [] => (Some "受信者が指定されていません", [])
        | to0 :: _ =>
            let call := SendMail to0 subject body isHTML in
            (wrapSendError (graphClient (backend s) call), [call])
        end
  end.

End WithLib.

End smtp.

(* ===================================================================== *)
(** * internal/auth: token record, token cache, PKCE                      *)
(* ===================================================================== *)

Module auth.
Import gostd.

(** ** package time

    A [time.Time] is an instant, counted in nanoseconds from Go's zero
    time; a [time.Duration] is a signed 64-bit count of nanoseconds.  One
    clock is modelled (no separate monotonic reading), and [Add] is exact:
    it saturates in Go only beyond the int64 range of seconds, far from any
    date that can be written to or read from the cache file. *)
Definition Time := Z.
Definition Duration := Z.

Definition wrap64 (x : Z) : Z := ((x + 2 ^ 63) mod 2 ^ 64 - 2 ^ 63)%Z.

Definition Second : Duration := 1000000000%Z.

(** [time.Duration(n) * time.Second], with the overflow of int64. *)
Definition seconds (n : Z) : Duration := wrap64 (wrap64 n * Second).

Definition IsZero (t : Time) : bool := (t =? 0)%Z.
Definition Add (t : Time) (d : Duration) : Time := (t + d)%Z.
Definition After (t u : Time) : bool := (u <? t)%Z.

Definition tokenBufferSecs : Z := 300.

Record TokenResponse : Type := {
  AccessToken : string;
  TokenType : string;
  ExpiresIn : Z;
  RefreshToken : string;
  Scope : string;
  CachedAt : Time
}.

(** [IsExpired], at the instant [now] that [time.Now()] returns. *)
Definition IsExpired (tr : TokenResponse) (now : Time) : bool :=
  if IsZero (CachedAt tr) then true
  else
    let expirationTime := Add (CachedAt tr) (seconds (ExpiresIn tr)) in
    After (Add now (seconds tokenBufferSecs)) expirationTime.

(** ** package os: the files the cache manager touches

    A file has contents and permission bits.  Paths in [denied] stand for
    whatever makes the operating system refuse to open, create or remove
    the file (a missing directory, a permission).  [short] gives, for a
    path, the number of bytes the device accepts before a write to that
    file fails (a full disk, a quota); a file at a path in [unclosed]
    cannot be closed without error, whatever was written.  [umask] is the
    file mode creation mask of the process.

    The permission bits are recorded as [os.WriteFile] sets or keeps them;
    they are not consulted: whether a file can be opened is given by
    [denied] alone, for reading as for writing.  A file is named by its
    path as a string, so two names of one file are two files here. *)
Record FileSystem : Type := {
  files : gmap string (string * N);
  denied : gset string;
  short : gmap string nat;
  unclosed : gset string;
  umask : N
}.

Definition ReadFile (fs : FileSystem) (path : string) : result string :=
  if decide (path ∈ denied fs) then Err "permission denied"
  else match files fs !! path with
       | Some (data, _) => Ok data
       | None => Err "no such file or directory"
       end.

(** [os.WriteFile]: opens the file with [O_WRONLY|O_CREATE|O_TRUNC], which
    creates it with the bits of [perm] that the umask leaves, or empties an
    existing file and leaves its permission bits as they are; then writes
    [data] and closes the file.  When the file cannot be opened nothing
    changes; when the write fails the file keeps the bytes written so far;
    the error of the write comes before that of the close.  The result is
    the file system afterwards and the error returned. *)
Definition WriteFile (fs : FileSystem) (path data : string) (perm : N)
  : FileSystem * option error :=
  if decide (path ∈ denied fs) then (fs, Some "permission denied")
  else
    let perm' := match files fs !! path with
                 | Some (_, p) => p
                 | None => N.ldiff perm (umask fs)
                 end in
    let written := match short fs !! path with
                   | Some n => firstn n (bytes data)
                   | None => bytes data
                   end in
    ({| files := <[path := (str written, perm')]> (files fs);
        denied := denied fs; short := short fs; unclosed := unclosed fs;
        umask := umask fs |},
     if (length written <? String.length data)%nat
     then Some "no space left on device"
     else if decide (path ∈ unclosed fs) then Some "input/output error"
     else None).

(** [encoding/json] on a [TokenResponse]. *)
Class JsonLib : Type := {
  MarshalIndent : TokenResponse -> result string;
  Unmarshal : string -> result TokenResponse
}.

Record TokenCacheManager : Type := { filePath : string }.

Definition NewTokenCacheManager (path : string) : TokenCacheManager :=
  {| filePath := path |}.

Section WithJson.
Context {json : JsonLib}.

Definition LoadToken (tcm : TokenCacheManager) (fs : FileSystem) (now : Time)
  : result TokenResponse :=
  match ReadFile fs (filePath tcm) with
  | Err e => Err e
  | Ok data =>
      match Unmarshal data with
      | Err e => Err e
      | Ok token =>
          if IsExpired token now then Err "token expired" else Ok token
      end
  end.

(** [SaveToken] at the instant [now]: the file system afterwards, the
    caller's record (whose [CachedAt] is overwritten through the pointer),
    and the error returned. *)
Definition SaveToken (tcm : TokenCacheManager) (fs : FileSystem)
           (token : TokenResponse) (now : Time)
  : FileSystem * TokenResponse * option error :=
  let token :=
    {| AccessToken := AccessToken token; TokenType := TokenType token;
       ExpiresIn := ExpiresIn token; RefreshToken := RefreshToken token;
       Scope := Scope token; CachedAt := now |} in
  match MarshalIndent token with
  | Err e => (fs, token, Some e)
  | Ok data =>
      let '(fs', err) := WriteFile fs (filePath tcm) data 384 in
      (fs', token, err)
  end.

End WithJson.

(** [time.Time.Sub]: the difference, kept within the range of a duration. *)
Definition minDuration : Duration := (- 2 ^ 63)%Z.
Definition maxDuration : Duration := (2 ^ 63 - 1)%Z.

Definition Sub (t u : Time) : Duration :=
  let d := (t - u)%Z in
  if (minDuration <=? d)%Z && (d <=? maxDuration)%Z then d
  else if (t <? u)%Z then minDuration
  else maxDuration.

(** [time.Until(t)], at the instant [now]. *)
Definition Until (t now : Time) : Duration := Sub t now.

Definition RemainingValidity (tr : TokenResponse) (now : Time) : Duration :=
  if IsZero (CachedAt tr) then 0%Z
  else
    let expirationTime := Add (CachedAt tr) (seconds (ExpiresIn tr)) in
    let remaining := Until expirationTime now in
    if (remaining <? 0)%Z then 0%Z else remaining.

(** [os.Remove] and [os.IsNotExist]. *)
Definition errNotExist : error := "no such file or directory".

Definition IsNotExist (e : error) : bool := String.eqb e errNotExist.

Definition Remove (fs : FileSystem) (path : string) : result FileSystem :=
  if decide (path ∈ denied fs) then Err "permission denied"
  else match files fs !! path with
       | Some _ => Ok {| files := delete path (files fs); denied := denied fs;
                         short := short fs; unclosed := unclosed fs;
                         umask := umask fs |}
       | None => Err errNotExist
       end.

(** [ClearCache]: the file system afterwards and the error returned. *)
Definition ClearCache (tcm : TokenCacheManager) (fs : FileSystem)
  : FileSystem * option error :=
  match Remove fs (filePath tcm) with
  | Err e => if negb (IsNotExist e) then (fs, Some e) else (fs, None)
  | Ok fs' => (fs', None)
  end.

Section GetToken.
Context {json : JsonLib}.

(** [GetAccessToken], on the authenticator's token cache [tcm].  The three
    instants are those of the calls to [time.Now()], in [LoadToken], in the
    second [IsExpired] test and in [SaveToken]; [acquire] is what
    [acquireNewToken] returns if it is called.  The result comes with the
    file system afterwards and whether a new token was acquired. *)
Definition GetAccessToken (tcm : TokenCacheManager) (fs : FileSystem)
           (nowLoad nowCheck nowSave : Time) (acquire : result TokenResponse)
  : result string * FileSystem * bool :=
  let fresh :=
    match acquire with
    | Err e => (Err ("トークン取得エラー: " +:+ e), fs, true)
    | Ok token =>
        let '(fs', _, _) := SaveToken tcm fs token nowSave in
        (Ok (AccessToken token), fs', true)
    end in
  match LoadToken tcm fs nowLoad with
  | Ok cachedToken =>
      if negb (IsExpired cachedToken nowCheck)
      then (Ok (AccessToken cachedToken), fs, false)
      else fresh
  | Err _ => fresh
  end.

End GetToken.

(** ** PKCE *)

Record Authenticator : Type := {
  clientID : string;
  redirectURI : string;
  authorityURL : string;
  codeVerifier : string;
  codeChallenge : string
}.

(** [b := make([]byte, 32); rand.Read(b)]: the buffer starts zeroed and
    receives what the random source delivers. *)
Definition rand_Read32 (source : list ascii) : list ascii :=
  firstn 32 (source ++ repeat zero 32).

(** The challenge that [generatePKCE] derives from a verifier. *)
Definition challengeOf (verifier : string) : string :=
  RawURLEncoding_EncodeToString (sha256.Sum256 (bytes verifier)).

(** [generatePKCE], given the bytes of the random source. *)
Definition generatePKCE (a : Authenticator) (source : list ascii)
  : Authenticator :=
  let b := rand_Read32 source in
  let verifier := RawURLEncoding_EncodeToString b in
  {| clientID := clientID a; redirectURI := redirectURI a;
     authorityURL := authorityURL a;
     codeVerifier := verifier;
     codeChallenge := challengeOf verifier |}.

End auth.

(* ===================================================================== *)
(** * internal/config/config.go: the generated password                   *)
(* ===================================================================== *)

Module config.
Import gostd.

(** [b := make([]byte, n)] filled by a successful [rand.Read(b)]. *)
Definition rand_Read (n : nat) (source : list ascii) : list ascii :=
  firstn n (source ++ repeat zero n).

(** [base64.URLEncoding.EncodeToString]: URL-safe alphabet, [=] padding. *)
Definition URLEncoding_EncodeToString (src : list ascii) : string :=
  str (b64encode encodeURL [EQ] src).

(** The slice expression [s[:n]]; [None] stands for the run-time panic when
    [n] exceeds the length. *)
Definition sliceTo (s : string) (n : nat) : option string :=
  if (n <=? String.length s)%nat then Some (str (firstn n (bytes s))) else None.

(** [generatePassword(length)]; [source] is what the random source delivers
    or the error of [rand.Read].  [None] stands for a panic. *)
Definition generatePassword (length : nat) (source : result (list ascii))
  : option (result string) :=
  match source with
  | Err e => Some (Err e)
  | Ok data =>
      let b := rand_Read length data in
      option_map Ok (sliceTo (URLEncoding_EncodeToString b) length)
  end.

End config.

(* ===================================================================== *)
(** * Go's encoding/json and time on a token record                       *)
(* ===================================================================== *)

(** What [json.MarshalIndent] writes for a [TokenResponse] and what
    [json.Unmarshal] makes of such a document, after the Go standard
    library (encoding/json: [appendString], the scanner and [unquote];
    time: [Time.MarshalJSON], [appendStrictRFC3339], [parseRFC3339];
    unicode/utf8).  It gives the codec of the cache file as an instance of
    [JsonLib]. *)
Module gojson.
Import gostd auth.

Local Open Scope N_scope.

Definition QUOTE : ascii := "034".
Definition BACKSLASH : ascii := "\".

(** ** package unicode/utf8 *)

Definition between (lo hi : N) (c : ascii) : bool :=
  (lo <=? N_of_ascii c) && (N_of_ascii c <=? hi).

Definition isCont (c : ascii) : bool := between 128 191 c.

(** The range of the second byte, by the first ([acceptRanges]). *)
Definition second3 (b0 b1 : ascii) : bool :=
  if N_of_ascii b0 =? 224 then between 160 191 b1
  else if N_of_ascii b0 =? 237 then between 128 159 b1
  else isCont b1.

Definition second4 (b0 b1 : ascii) : bool :=
  if N_of_ascii b0 =? 240 then between 144 191 b1
  else if N_of_ascii b0 =? 244 then between 128 143 b1
  else isCont b1.

(** [utf8.DecodeRune] on the head of [l]: the width of the encoding found
    there, and [0] where the function returns [(RuneError, 1)] (a byte that
    starts no well-formed encoding) or [l] is empty. *)
Definition runeLen (l : list ascii) : nat :=
  match l with
  | [] => 0%nat
  | b0 :: t =>
      if N_of_ascii b0 <? 128 then 1%nat
      else if between 194 223 b0 then
        match t with
        | b1 :: _ => if isCont b1 then 2%nat else 0%nat
        | _ => 0%nat
        end
      else if between 224 239 b0 then
        match t with
        | b1 :: b2 :: _ => if second3 b0 b1 && isCont b2 then 3%nat else 0%nat
        | _ => 0%nat
        end
      else if between 240 244 b0 then
        match t with
        | b1 :: b2 :: b3 :: _ =>
            if second4 b0 b1 && isCont b2 && isCont b3 then 4%nat else 0%nat
        | _ => 0%nat
        end
      else 0%nat
  end.

(** [utf8.RuneError] (U+FFFD) in UTF-8. *)
Definition runeError : list ascii := ["239"; "191"; "189"]%char.

(** [utf8.Valid]. *)
Fixpoint Valid (l : list ascii) : bool :=
  match l with
  | [] => true
  | _ :: t =>
      match runeLen l, t with
      | 1%nat, _ => Valid t
      | 2%nat, _ :: t' => Valid t'
      | 3%nat, _ :: _ :: t' => Valid t'
      | 4%nat, _ :: _ :: _ :: t' => Valid t'
      | _, _ => false
      end
  end.

(** [utf8.EncodeRune] for a rune below U+10000 that is no surrogate. *)
Definition EncodeRune (r : N) : list ascii :=
  if r <? 128 then [ascii_of_N r]
  else if r <? 2048 then [ascii_of_N (192 + r / 64); ascii_of_N (128 + r mod 64)]
  else [ascii_of_N (224 + r / 4096); ascii_of_N (128 + r / 64 mod 64);
        ascii_of_N (128 + r mod 64)].

(** ** encoding/json: string literals *)

Definition hex (n : N) : ascii :=
  nth (N.to_nat n) (bytes "0123456789abcdef") "0"%char.

(** [htmlSafeSet]: the ASCII bytes written as they are. *)
Definition htmlSafe (c : ascii) : bool :=
  between 32 127 c
  && negb (Ascii.eqb c QUOTE || Ascii.eqb c "&" || Ascii.eqb c "<"
           || Ascii.eqb c ">" || Ascii.eqb c BACKSLASH).

(** What [appendString] writes for a byte below [utf8.RuneSelf] (the
    short escapes of backspace and form feed are those of Go 1.22 and
    later; before, both were written with [\u00], which reads back the
    same). *)
Definition escapeASCII (c : ascii) : list ascii :=
  if htmlSafe c then [c]
  else if Ascii.eqb c BACKSLASH || Ascii.eqb c QUOTE then [BACKSLASH; c]
  else if N_of_ascii c =? 8 then [BACKSLASH; "b"%char]
  else if N_of_ascii c =? 12 then [BACKSLASH; "f"%char]
  else if N_of_ascii c =? 10 then [BACKSLASH; "n"%char]
  else if N_of_ascii c =? 13 then [BACKSLASH; "r"%char]
  else if N_of_ascii c =? 9 then [BACKSLASH; "t"%char]
  else [BACKSLASH; "u"; "0"; "0"; hex (N_of_ascii c / 16);
        hex (N_of_ascii c mod 16)]%char.

(** U+2028 and U+2029 in UTF-8: [E2 80 A8] and [E2 80 A9]. *)
Definition lineSeparator (b0 b1 b2 : ascii) : bool :=
  (N_of_ascii b0 =? 226) && (N_of_ascii b1 =? 128) && between 168 169 b2.

(** The loop of [appendString] with [escapeHTML] set, between the quotes:
    a byte that starts no well-formed encoding is written as the escape
    of U+FFFD. *)
Fixpoint escape (l : list ascii) : list ascii :=
  match l with
  | [] => []
  | b0 :: t =>
      match runeLen l, t with
      | 1%nat, _ => escapeASCII b0 ++ escape t
      | 2%nat, b1 :: t' => b0 :: b1 :: escape t'
      | 3%nat, b1 :: b2 :: t' =>
          if lineSeparator b0 b1 b2
          then BACKSLASH :: bytes "u202" ++ hex (N_of_ascii b2 mod 16) :: escape t'
          else b0 :: b1 :: b2 :: escape t'
      | 4%nat, b1 :: b2 :: b3 :: t' => b0 :: b1 :: b2 :: b3 :: escape t'
      | _, _ => BACKSLASH :: bytes "ufffd" ++ escape t
      end
  end.

Definition appendString (s : string) : list ascii :=
  QUOTE :: escape (bytes s) ++ [QUOTE].

Definition push (p : list ascii) (o : option (list ascii * list ascii))
  : option (list ascii * list ascii) :=
  match o with
  | Some (s, rest) => Some (p ++ s, rest)
  | None => None
  end.

Definition isSurrogate (r : N) : bool := (55296 <=? r) && (r <? 57344).

(** A string literal after its opening quote, as the scanner and [unquote]
    read it: the value and what follows the closing quote.  Bytes that are
    not well-formed UTF-8 are replaced by U+FFFD.  [None] is a literal
    that is not closed or not valid, or one with a [\u] escape of a
    surrogate (read by [unquote] through [utf16.DecodeRune], not modelled). *)
Fixpoint readString (l : list ascii) : option (list ascii * list ascii) :=
  match l with
  | [] => None
  | c :: t =>
      if N_of_ascii c <? 128 then
        if Ascii.eqb c QUOTE then Some ([], t)
        else if Ascii.eqb c BACKSLASH then
          match t with
          | e :: t1 =>
              if Ascii.eqb e QUOTE || Ascii.eqb e BACKSLASH || Ascii.eqb e "/"
              then push [e] (readString t1)
              else if Ascii.eqb e "b" then push ["008"%char] (readString t1)
              else if Ascii.eqb e "f" then push ["012"%char] (readString t1)
              else if Ascii.eqb e "n" then push ["010"%char] (readString t1)
              else if Ascii.eqb e "r" then push ["013"%char] (readString t1)
              else if Ascii.eqb e "t" then push ["009"%char] (readString t1)
              else if Ascii.eqb e "u" then
                match t1 with
                | h1 :: h2 :: h3 :: h4 :: t2 =>
                    match hexval h1, hexval h2, hexval h3, hexval h4 with
                    | Some a, Some b, Some c', Some d =>
                        let r := ((a * 16 + b) * 16 + c') * 16 + d in
                        if isSurrogate r then None
                        else push (EncodeRune r) (readString t2)
                    | _, _, _, _ => None
                    end
                | _ => None
                end
              else None
          | [] => None
          end
        else if N_of_ascii c <? 32 then None
        else push [c] (readString t)
      else
        match runeLen l, t with
        | 2%nat, b1 :: t' => push [c; b1] (readString t')
        | 3%nat, b1 :: b2 :: t' => push [c; b1; b2] (readString t')
        | 4%nat, b1 :: b2 :: b3 :: t' => push [c; b1; b2; b3] (readString t')
        | _, _ => push runeError (readString t)
        end
  end.

Local Close Scope N_scope.
Local Open Scope Z_scope.

(** ** package time: the civil calendar

    Days are counted from January 1 of year 1 (Go's zero time), in the
    proleptic Gregorian calendar. *)

Definition isLeap (year : Z) : bool :=
  (year mod 4 =? 0) && (negb (year mod 100 =? 0) || (year mod 400 =? 0)).

Definition daysIn (month year : Z) : Z :=
  if month =? 2 then (if isLeap year then 29 else 28)
  else if (month =? 4) || (month =? 6) || (month =? 9) || (month =? 11)
  then 30 else 31.

(** Year of the 400-year cycle (counted from March 1), month and day of a
    day of the cycle. *)
Definition dateOfCycleDay (doe : Z) : Z * Z * Z :=
  let yoe := (doe - doe / 1460 + doe / 36524 - doe / 146096) / 365 in
  let doy := doe - (365 * yoe + yoe / 4 - yoe / 100) in
  let mp := (5 * doy + 2) / 153 in
  let d := doy - (153 * mp + 2) / 5 + 1 in
  let m := if mp <? 10 then mp + 3 else mp - 9 in
  (yoe, m, d).

(** Year, month and day of a day number: the result of [absDays.date],
    computed on the 400-year cycle that starts on March 1. *)
Definition date (days : Z) : Z * Z * Z :=
  let era := (days + 306) / 146097 in
  let doe := (days + 306) mod 146097 in
  let '(yoe, m, d) := dateOfCycleDay doe in
  (era * 400 + yoe + (if m <=? 2 then 1 else 0), m, d).

Definition cycleDayOfDate (yoe m d : Z) : Z :=
  let mp := if 2 <? m then m - 3 else m + 9 in
  yoe * 365 + yoe / 4 - yoe / 100 + (153 * mp + 2) / 5 + d - 1.

(** The day number of a date, as [time.Date] gives it. *)
Definition daysOf (year m d : Z) : Z :=
  let y := year - (if m <=? 2 then 1 else 0) in
  (y / 400) * 146097 + cycleDayOfDate (y mod 400) m d - 306.

(** [time.Date(year, month, day, hour, min, sec, nsec, time.UTC)] on values
    within their ranges. *)
Definition Date (year month day hour min sec nsec : Z) : Time :=
  ((daysOf year month day * 86400 + hour * 3600 + min * 60 + sec)
   * 1000000000 + nsec).

(** ** package time: RFC 3339 *)

Definition digit (d : Z) : ascii := ascii_of_N (Z.to_N (48 + d)).

Definition isDigit (c : ascii) : bool := between 48 57 c.

Definition pad2 (v : Z) : list ascii := [digit (v / 10); digit (v mod 10)].

Definition pad4 (v : Z) : list ascii :=
  [digit (v / 1000); digit (v / 100 mod 10); digit (v / 10 mod 10);
   digit (v mod 10)].

(** The nine digits of a count of nanoseconds, most significant first. *)
Fixpoint digits (n : nat) (v : Z) : list ascii :=
  match n with
  | O => []
  | S n' => digits n' (v / 10) ++ [digit (v mod 10)]
  end.

Fixpoint trimZeros (rev : list ascii) : list ascii :=
  match rev with
  | c :: t => if Ascii.eqb c "0" then trimZeros t else rev
  | [] => []
  end.

(** [appendNano] for the layout [.999999999]: nothing for a whole second,
    else the fraction without its trailing zeros. *)
Definition appendNano (nsec : Z) : list ascii :=
  if nsec =? 0 then []
  else "."%char :: List.rev (trimZeros (List.rev (digits 9 nsec))).

(** The zone of [appendFormatRFC3339]. *)
Definition appendZone (offset : Z) : list ascii :=
  if offset =? 0 then ["Z"%char]
  else
    let zone := Z.quot offset 60 in
    (if zone <? 0 then "-"%char else "+"%char)
      :: pad2 (Z.abs zone / 60) ++ ":"%char :: pad2 (Z.abs zone mod 60).

(** The error of [Time.MarshalJSON], as [encoding/json] reports it. *)
Definition marshalError (msg : string) : error :=
  "json: error calling MarshalJSON for type time.Time: Time.MarshalJSON: "
  +:+ msg.

(** [Time.appendStrictRFC3339] of an instant shown with the zone offset
    [offset] (seconds east of UTC): the text of [appendFormatRFC3339] with
    nanoseconds, refused for a year that is not four digits wide or a zone
    of 24 hours or more. *)
Definition appendStrictRFC3339 (offset : Z) (t : Time) : result (list ascii) :=
  let abs := t / 1000000000 + offset in
  let nsec := t mod 1000000000 in
  let '(year, month, day) := date (abs / 86400) in
  let clock := abs mod 86400 in
  if (year <? 0) || (9999 <? year)
  then Err (marshalError "year outside of range [0,9999]")
  else if negb (offset =? 0) && (24 <=? Z.abs (Z.quot offset 60) / 60)
  then Err (marshalError "timezone hour outside of range [0,23]")
  else
    Ok (pad4 year ++ "-"%char :: pad2 month ++ "-"%char :: pad2 day
        ++ "T"%char :: pad2 (clock / 3600) ++ ":"%char
        :: pad2 (clock mod 3600 / 60) ++ ":"%char :: pad2 (clock mod 60)
        ++ appendNano nsec ++ appendZone offset).

(** [parseUint] of [parseRFC3339]: a run of decimal digits with a value
    between [min] and [max]. *)
Fixpoint atoi (acc : Z) (s : list ascii) : option Z :=
  match s with
  | [] => Some acc
  | c :: t =>
      if isDigit c then atoi (acc * 10 + (Z.of_N (N_of_ascii c) - 48)) t
      else None
  end.

Definition parseUint (s : list ascii) (min max : Z) : option Z :=
  match atoi 0 s with
  | Some x => if (x <? min) || (max <? x) then None else Some x
  | None => None
  end.

Fixpoint span (p : ascii -> bool) (l : list ascii) : list ascii * list ascii :=
  match l with
  | c :: t => if p c then let '(a, b) := span p t in (c :: a, b) else ([], l)
  | [] => ([], [])
  end.

(** [parseNanoseconds] on the digits after the point: at most nine are
    used, scaled to nanoseconds. *)
Definition parseNanoseconds (ds : list ascii) : Z :=
  match atoi 0 (firstn 9 ds) with
  | Some ns => ns * 10 ^ (9 - Z.of_nat (length (firstn 9 ds)))
  | None => 0
  end.

(** The zone of [parseRFC3339]: the offset in seconds. *)
Definition parseZone (s : list ascii) : option Z :=
  match s with
  | [z] => if Ascii.eqb z "Z" then Some 0 else None
  | [sg; h1; h2; c; m1; m2] =>
      match parseUint [h1; h2] 0 23, parseUint [m1; m2] 0 59 with
      | Some hr, Some mm =>
          if Ascii.eqb c ":" then
            if Ascii.eqb sg "-" then Some (- ((hr * 60 + mm) * 60))
            else if Ascii.eqb sg "+" then Some ((hr * 60 + mm) * 60)
            else None
          else None
      | _, _ => None
      end
  | _ => None
  end.

(** [parseRFC3339]: the instant, or [None] where the function reports
    failure. *)
Definition parseRFC3339 (s : list ascii) : option Time :=
  match s with
  | y1 :: y2 :: y3 :: y4 :: c1 :: m1 :: m2 :: c2 :: d1 :: d2 :: c3
    :: h1 :: h2 :: c4 :: i1 :: i2 :: c5 :: s1 :: s2 :: rest =>
      match parseUint [y1; y2; y3; y4] 0 9999, parseUint [m1; m2] 1 12 with
      | Some year, Some month =>
          match parseUint [d1; d2] 1 (daysIn month year),
                parseUint [h1; h2] 0 23, parseUint [i1; i2] 0 59,
                parseUint [s1; s2] 0 59 with
          | Some day, Some hour, Some min, Some sec =>
              if Ascii.eqb c1 "-" && Ascii.eqb c2 "-" && Ascii.eqb c3 "T"
                 && Ascii.eqb c4 ":" && Ascii.eqb c5 ":"
              then
                let '(nsec, rest) :=
                  match rest with
                  | p :: d :: rest' =>
                      if Ascii.eqb p "." && isDigit d
                      then let '(ds, rest'') := span isDigit (d :: rest') in
                           (parseNanoseconds ds, rest'')
                      else (0, rest)
                  | _ => (0, rest)
                  end in
                match parseZone rest with
                | Some zoneOffset =>
                    Some (Date year month day hour min sec nsec
                          - zoneOffset * 1000000000)
                | None => None
                end
              else None
          | _, _, _, _ => None
          end
      | _, _ => None
      end
  | _ => None
  end.

(** ** encoding/json on a [TokenResponse] *)

(** The range of an [int] (of 64 bits). *)
Definition int64 (z : Z) : bool := (- 2 ^ 63 <=? z) && (z <? 2 ^ 63).

(** [strconv.AppendInt] in base 10. *)
Definition appendInt (z : Z) : list ascii :=
  bytes (NilZero.string_of_int (Z.to_int z)).

Definition isIntChar (c : ascii) : bool := isDigit c || Ascii.eqb c "-".

(** A number literal in the form [appendInt] writes. *)
Definition readInt (lit : list ascii) : option Z :=
  match NilZero.int_of_string (str lit) with
  | Some d =>
      if bytes_eqb lit (appendInt (Z.of_int d)) then Some (Z.of_int d) else None
  | None => None
  end.

Definition key (first : bool) (name : string) : list ascii :=
  (if first then bytes "{" else bytes ",") ++ LF :: bytes "  "
    ++ QUOTE :: bytes name ++ QUOTE :: bytes ": ".

(** [json.MarshalIndent(token, "", "  ")], where the local zone has the
    offset [offset] at the instant in [CachedAt]. *)
Definition marshalIndent (offset : Z) (t : TokenResponse) : result string :=
  match appendStrictRFC3339 offset (CachedAt t) with
  | Err e => Err e
  | Ok stamp =>
      Ok (str (key true "access_token" ++ appendString (AccessToken t)
               ++ key false "token_type" ++ appendString (TokenType t)
               ++ key false "expires_in" ++ appendInt (ExpiresIn t)
               ++ key false "refresh_token" ++ appendString (RefreshToken t)
               ++ key false "scope" ++ appendString (Scope t)
               ++ key false "cached_at" ++ QUOTE :: stamp
               ++ QUOTE :: LF :: bytes "}"))
  end.

Definition expect (p l : list ascii) : option (list ascii) :=
  if bytes_eqb (firstn (length p) l) p then Some (skipn (length p) l) else None.

Definition member {A : Type} (first : bool) (name : string) (l : list ascii)
           (read : list ascii -> option (A * list ascii))
  : option (A * list ascii) :=
  match expect (key first name) l with
  | Some rest => read rest
  | None => None
  end.

Definition stringValue (l : list ascii) : option (string * list ascii) :=
  match l with
  | q :: t =>
      if Ascii.eqb q QUOTE then
        match readString t with
        | Some (v, rest) => Some (str v, rest)
        | None => None
        end
      else None
  | [] => None
  end.

Definition intValue (l : list ascii) : option (Z * list ascii) :=
  let '(lit, rest) := span isIntChar l in
  match readInt lit with
  | Some z => Some (z, rest)
  | None => None
  end.

(** [Time.UnmarshalJSON] takes the bytes between the quotes as they are. *)
Definition timeValue (l : list ascii) : option (Time * list ascii) :=
  match l with
  | q :: t =>
      if Ascii.eqb q QUOTE then
        let '(raw, rest) := span (fun c => negb (Ascii.eqb c QUOTE)) t in
        match parseRFC3339 raw, rest with
        | Some time, _ :: rest' => Some (time, rest')
        | _, _ => None
        end
      else None
  | [] => None
  end.

(** A document in the layout [marshalIndent] writes: the six values. *)
Definition readDocument (l : list ascii) : option TokenResponse :=
  match member true "access_token" l stringValue with
  | Some (a, l1) =>
  match member false "token_type" l1 stringValue with
  | Some (ty, l2) =>
  match member false "expires_in" l2 intValue with
  | Some (e, l3) =>
  match member false "refresh_token" l3 stringValue with
  | Some (r, l4) =>
  match member false "scope" l4 stringValue with
  | Some (sc, l5) =>
  match member false "cached_at" l5 timeValue with
  | Some (c, l6) =>
      if bytes_eqb l6 (LF :: bytes "}") then
        Some {| AccessToken := a; TokenType := ty; ExpiresIn := e;
                RefreshToken := r; Scope := sc; CachedAt := c |}
      else None
  | None => None end
  | None => None end
  | None => None end
  | None => None end
  | None => None end
  | None => None end.

(** [json.Unmarshal(data, &token)] into a zero record.  On a document in
    the layout above it stores the six values, or reports a number that
    does not fit the field; what it does on any other input is [other]. *)
Definition unmarshal (other : string -> result TokenResponse) (data : string)
  : result TokenResponse :=
  match readDocument (bytes data) with
  | Some t =>
      if int64 (ExpiresIn t) then Ok t
      else Err ("json: cannot unmarshal number into Go struct field "
                +:+ "TokenResponse.expires_in of type int")
  | None => other data
  end.

(** [encoding/json] where the local zone has the offset [zone t] at the
    instant [t]. *)
Definition GoJson (zone : Time -> Z) (other : string -> result TokenResponse)
  : JsonLib :=
  {| MarshalIndent := fun t => marshalIndent (zone (CachedAt t)) t;
     Unmarshal := unmarshal other |}.

(** ** Auxiliary definitions for the proofs *)

(** What reading back makes of a string: every byte that starts no
    well-formed encoding becomes U+FFFD. *)
Fixpoint coerce (l : list ascii) : list ascii :=
  match l with
  | [] => []
  | b0 :: t =>
      match runeLen l, t with
      | 1%nat, _ => b0 :: coerce t
      | 2%nat, b1 :: t' => b0 :: b1 :: coerce t'
      | 3%nat, b1 :: b2 :: t' => b0 :: b1 :: b2 :: coerce t'
      | 4%nat, b1 :: b2 :: b3 :: t' => b0 :: b1 :: b2 :: b3 :: coerce t'
      | _, _ => runeError ++ coerce t
      end
  end.

(** [p] on the [n] integers from [z]. *)
Fixpoint allFrom (n : nat) (z : Z) (p : Z -> bool) : bool :=
  match n with
  | O => true
  | S k => p z && allFrom k (z + 1) p
  end.

(** The month and the day found for a day of a year that starts on
    March 1 are a month and one of its days (the 366th day being
    February 29), and they give the day of the year back. *)
Definition monthDayOk (doy : Z) : bool :=
  let mp := (5 * doy + 2) / 153 in
  let d := doy - (153 * mp + 2) / 5 + 1 in
  let m := if mp <? 10 then mp + 3 else mp - 9 in
  (1 <=? m) && (m <=? 12) && (1 <=? d)
  && (if doy =? 365 then (m =? 2) && (d =? 29) else d <=? daysIn m 1)
  && ((if 2 <? m then m - 3 else m + 9) =? mp).

End gojson.

(* ===================================================================== *)
(** * A small executable stand-in for the library functions               *)
(* ===================================================================== *)

(** [testlib] gives the library functions a concrete reading on a plain
    subset of their inputs, so that the examples below can be evaluated
    from raw message bytes: header lines of the form [Name: value] (no
    folding, no encoded words), bare [user@host] address lists separated
    by commas, ASCII-only case folding, multipart bodies whose delimiter
    lines are exactly [--boundary] and [--boundary--].  The theorems never
    depend on it: they hold for every [MailLib] and [JsonLib]. *)
Module testlib.
Import gostd smtp auth.

Definition SP : ascii := " ".
Definition TAB : ascii := "009".
Definition DQ : ascii := "034".

(** The lines of a text, each with its terminator. *)
Fixpoint rawLines (s : list ascii) : list (list ascii) :=
  match s with
  | [] => []
  | c :: s' =>
      if Ascii.eqb c LF then [c] :: rawLines s'
      else match rawLines s' with
           | l :: ls => (c :: l) :: ls
           | [] => [[c]]
           end
  end.

Definition lineText (l : list ascii) : list ascii := TrimRight l [CR; LF].

Fixpoint dropBlanks (l : list ascii) : list ascii :=
  match l with
  | c :: r => if Ascii.eqb c SP || Ascii.eqb c TAB then dropBlanks r else l
  | [] => []
  end.

Definition trim (l : list ascii) : list ascii :=
  TrimRight (dropBlanks l) [SP; TAB].

Definition lower (c : ascii) : ascii :=
  let n := N_of_ascii c in
  if (65 <=? n)%N && (n <=? 90)%N then ascii_of_N (n + 32) else c.

Definition upper (c : ascii) : ascii :=
  let n := N_of_ascii c in
  if (97 <=? n)%N && (n <=? 122)%N then ascii_of_N (n - 32) else c.

(** The text before and after the first [sep]. *)
Fixpoint cut (sep : ascii) (l : list ascii)
  : option (list ascii * list ascii) :=
  match l with
  | [] => None
  | c :: r =>
      if Ascii.eqb c sep then Some ([], r)
      else match cut sep r with
           | Some (a, b) => Some (c :: a, b)
           | None => None
           end
  end.

Fixpoint splitOn (sep : ascii) (l : list ascii) : list (list ascii) :=
  match l with
  | [] => [[]]
  | c :: r =>
      if Ascii.eqb c sep then [] :: splitOn sep r
      else match splitOn sep r with
           | x :: xs => (c :: x) :: xs
           | [] => [[c]]
           end
  end.

(** [textproto.CanonicalMIMEHeaderKey] on a well-formed name. *)
Fixpoint canonical (start : bool) (l : list ascii) : list ascii :=
  match l with
  | [] => []
  | c :: r =>
      (if start then upper c else lower c) :: canonical (Ascii.eqb c "-") r
  end.

Inductive headerScan : Type :=
| Done (h : MIMEHeader) (rest : list (list ascii))
| Eof (h : MIMEHeader)
| Bad.

Definition addHeader (h : MIMEHeader) (k v : string) : MIMEHeader :=
  <[k := default [] (h !! k) ++ [v]]> h.

Fixpoint headerLines (ls : list (list ascii)) (h : MIMEHeader) : headerScan :=
  match ls with
  | [] => Eof h
  | l :: rest =>
      match lineText l with
      | [] => Done h rest
      | t =>
          match cut ":" t with
          | Some (k, v) =>
              headerLines rest (addHeader h (str (canonical true k)) (str (trim v)))
          | None => Bad
          end
      end
  end.

Definition reader (b : list ascii) : Reader :=
  {| content := str b; failure := None |}.

Definition testReadMessage (r : Reader) : result Message :=
  match failure r with
  | Some e => Err e
  | None =>
      match headerLines (rawLines (bytes (content r))) ∅ with
      | Done h rest => Ok {| Header := h; Body := reader (concat rest) |}
      | Eof h =>
          if decide (h = ∅) then Err "EOF"
          else Ok {| Header := h; Body := reader [] |}
      | Bad => Err "malformed MIME header line"
      end
  end.

Definition unquote (l : list ascii) : list ascii :=
  match l with
  | c :: r =>
      if Ascii.eqb c DQ && HasSuffix r [DQ] then TrimSuffix r [DQ] else l
  | [] => []
  end.

Definition addParam (m : gmap string string) (p : list ascii)
  : gmap string string :=
  match cut "=" p with
  | Some (k, v) => <[str (map lower (trim k)) := str (unquote (trim v))]> m
  | None => m
  end.

Definition testParseMediaType (v : string)
  : string * gmap string string * option error :=
  match splitOn ";" (bytes v) with
  | [] => ("", ∅, Some "mime: no media type")
  | mt :: ps =>
      match map lower (trim mt) with
      | [] => ("", ∅, Some "mime: no media type")
      | m => (str m, fold_left addParam ps ∅, None)
      end
  end.

Definition bareAddress (a : list ascii) : bool :=
  existsb (Ascii.eqb "@") a
  && negb (existsb (fun c => Ascii.eqb c SP || Ascii.eqb c "<" || Ascii.eqb c DQ
                             || Ascii.eqb c "(") a).

Definition testParseAddressList (v : string) : result (list Address) :=
  let items := map trim (splitOn "," (bytes v)) in
  if forallb bareAddress items
  then Ok (map (fun a => {| Name := ""; Addr := str a |}) items)
  else Err "mail: unsupported address form".

Definition testEqualFold (a b : string) : bool :=
  bytes_eqb (map lower (bytes a)) (map lower (bytes b)).

Definition flush (cur : option (list (list ascii))) : list (list (list ascii)) :=
  match cur with
  | Some ls => [ls]
  | None => []
  end.

(** The lines of each part, and whether the closing delimiter was seen. *)
Fixpoint scanParts (delim : list ascii) (ls : list (list ascii))
         (cur : option (list (list ascii)))
  : list (list (list ascii)) * bool :=
  match ls with
  | [] => ([], false)
  | l :: rest =>
      if bytes_eqb (lineText l) (delim ++ bytes "--") then (flush cur, true)
      else if bytes_eqb (lineText l) delim then
        let '(ps, closed) := scanParts delim rest (Some []) in
        (flush cur ++ ps, closed)
      else scanParts delim rest (option_map (fun c => c ++ [l]) cur)
  end.

(** The line break before a delimiter line belongs to the delimiter. *)
Definition chomp (b : list ascii) : list ascii :=
  if HasSuffix b [CR; LF] then TrimSuffix b [CR; LF] else TrimSuffix b [LF].

Definition toPart (ls : list (list ascii)) : Part :=
  match headerLines ls ∅ with
  | Done h rest => {| PartHeader := h; PartBody := reader (chomp (concat rest)) |}
  | Eof h => {| PartHeader := h; PartBody := reader [] |}
  | Bad => {| PartHeader := ∅; PartBody := reader [] |}
  end.

Definition testNewReader (body : Reader) (boundary : string) : multipart_Reader :=
  match failure body with
  | Some e => {| parts := []; final := Some e |}
  | None =>
      let '(ps, closed) :=
        scanParts (bytes "--" ++ bytes boundary) (rawLines (bytes (content body))) None in
      {| parts := map toPart ps;
         final := if closed then None else Some "multipart: NextPart: EOF" |}
  end.

Definition TestLib : MailLib :=
  {| EqualFold := testEqualFold;
     ParseMediaType := testParseMediaType;
     DecodeHeader := fun h => Ok h;
     ReadMessage := testReadMessage;
     ParseAddressList := testParseAddressList;
     NewReader := testNewReader |}.

(** ** A stand-in for [encoding/json] on token records

    It writes the six fields in the layout of [json.MarshalIndent], strings
    of printable ASCII without escapes and the time as its count of
    nanoseconds, and reads that layout back. *)

Definition plainChar (c : ascii) : bool :=
  let n := N_of_ascii c in
  (32 <=? n)%N && (n <=? 126)%N && negb (Ascii.eqb c DQ) && negb (Ascii.eqb c "\").

Definition plainString (v : string) : bool := forallb plainChar (bytes v).

Definition quoted (v : string) : list ascii := [DQ] ++ bytes v ++ [DQ].

Definition decimal (z : Z) : list ascii :=
  bytes (NilZero.string_of_int (Z.to_int z)).

Definition field (name : string) (value : list ascii) (last : bool)
  : list ascii :=
  bytes "  " ++ quoted name ++ bytes ": " ++ value
    ++ (if last then [] else bytes ",") ++ [LF].

Definition testMarshalIndent (t : TokenResponse) : result string :=
  if plainString (AccessToken t) && plainString (TokenType t)
     && plainString (RefreshToken t) && plainString (Scope t)
  then
    Ok (str (bytes "{" ++ [LF]
             ++ field "access_token" (quoted (AccessToken t)) false
             ++ field "token_type" (quoted (TokenType t)) false
             ++ field "expires_in" (decimal (ExpiresIn t)) false
             ++ field "refresh_token" (quoted (RefreshToken t)) false
             ++ field "scope" (quoted (Scope t)) false
             ++ field "cached_at" (decimal (CachedAt t)) true
             ++ bytes "}"))
  else Err "json: unsupported value".

(** One [  "name": value,] line, as a binding. *)
Definition readField (m : gmap string (list ascii)) (l : list ascii)
  : gmap string (list ascii) :=
  match cut ":" (TrimSuffix (trim (lineText l)) (bytes ",")) with
  | Some (k, v) => <[str (unquote (trim k)) := trim v]> m
  | None => m
  end.

Definition stringField (m : gmap string (list ascii)) (name : string)
  : option string :=
  match m !! name with
  | Some v => Some (str (unquote v))
  | None => Some ""
  end.

Definition numberField (m : gmap string (list ascii)) (name : string)
  : option Z :=
  match m !! name with
  | Some v => option_map Z.of_int (NilZero.int_of_string (str v))
  | None => Some 0%Z
  end.

Definition testUnmarshal (data : string) : result TokenResponse :=
  let ls := rawLines (bytes data) in
  match ls with
  | first :: _ =>
      if bytes_eqb (lineText first) (bytes "{") then
        let m := fold_left readField ls ∅ in
        match stringField m "access_token", stringField m "token_type",
              numberField m "expires_in", stringField m "refresh_token",
              stringField m "scope", numberField m "cached_at" with
        | Some a, Some ty, Some e, Some rt, Some sc, Some c =>
            Ok {| AccessToken := a; TokenType := ty; ExpiresIn := e;
                  RefreshToken := rt; Scope := sc; CachedAt := c |}
        | _, _, _, _, _, _ => Err "json: cannot unmarshal"
        end
      else Err "json: invalid character"
  | [] => Err "unexpected end of JSON input"
  end.

Definition TestJson : JsonLib :=
  {| MarshalIndent := testMarshalIndent; Unmarshal := testUnmarshal |}.

(** Text with [\n] line ends, from its lines. *)
Definition text (ls : list string) : string :=
  str (concat (map (fun l => bytes l ++ [LF]) ls)).

Definition input (ls : list string) : Reader :=
  {| content := text ls; failure := None |}.

End testlib.

(* ===================================================================== *)
(** * Sample inputs                                                       *)
(* ===================================================================== *)

Module samples.
Import gostd smtp auth gojson testlib.

(** A multipart body with two [text/plain] parts. *)
Definition twoPlainBody : Reader :=
  input ["--B"; "Content-Type: text/plain"; ""; "first";
         "--B"; "Content-Type: text/plain"; ""; "second";
         "--B--"].

(** A multipart body whose HTML part is empty and whose plain part is not. *)
Definition emptyHtmlParts : list Part :=
  parts (NewReader (MailLib := TestLib)
           (input ["--B"; "Content-Type: text/html"; ""; "";
                   "--B"; "Content-Type: text/plain"; ""; "Hello";
                   "--B--"]) "B").

(** A Graph client that accepts every call. *)
Definition acceptAll : Client := fun _ => None.

Definition testBackend : Backend :=
  {| graphClient := acceptAll; username := "user"; password := "secret" |}.

(** Two recipients and one CC address; two recipients and no CC. *)
Definition twoRcpt : Session :=
  fst (Rcpt (fst (Rcpt (NewSession testBackend) "alice@example.com"))
            "bob@example.com").

Definition ccMessage : Reader :=
  input ["Subject: hi"; "Cc: carol@example.com"; ""; "hello"].
Definition plainMessage : Reader := input ["Subject: hi"; ""; "hello"].

(** The message that the stand-in parser reads from [r]. *)
Definition parsed (r : Reader) : Message :=
  match ReadMessage (MailLib := TestLib) r with
  | Ok m => m
  | Err _ => {| Header := ∅; Body := r |}
  end.

(** A multipart message with no text part: the extraction fails. *)
Definition noTextMessage : Reader :=
  input ["Subject: picture";
         "Content-Type: multipart/mixed; boundary=B"; "";
         "--B"; "Content-Type: image/png"; ""; "iVBORw0KGgo=";
         "--B--"].

Definition sampleToken : TokenResponse :=
  {| AccessToken := "eyJ0eXAi.abc"; TokenType := "Bearer"; ExpiresIn := 3600%Z;
     RefreshToken := "0.AAA-bbb"; Scope := "User.Read Mail.Send";
     CachedAt := 0%Z |}.

(** An empty disk, for a process with the umask 022. *)
Definition emptyDisk : FileSystem :=
  {| files := ∅; denied := ∅; short := ∅; unclosed := ∅; umask := 18 |}.
Definition cachePath : TokenCacheManager := NewTokenCacheManager "/tmp/token.json".

(** An instant in the year 2025, and one second later. *)
Definition savedAt : Time := 63900000000000000000%Z.
Definition loadedAt : Time := 63900000001000000000%Z.

(** The octets, verifier and challenge of RFC 7636, appendix B. *)
Definition rfc7636Octets : list ascii :=
  map ascii_of_nat
      [116; 24; 223; 180; 151; 153; 224; 37; 79; 250; 96; 125; 216; 173; 187;
       186; 22; 212; 37; 77; 105; 214; 191; 240; 91; 88; 5; 88; 83; 132; 141;
       121].

Definition someAuthenticator : Authenticator :=
  {| clientID := "client"; redirectURI := "http://localhost:5225/callback";
     authorityURL := "https://login.microsoftonline.com/common";
     codeVerifier := ""; codeChallenge := "" |}.

(** The file system after a first save of [sampleToken]. *)
Definition savedDisk : FileSystem :=
  fst (fst (SaveToken (json := TestJson) cachePath emptyDisk sampleToken savedAt)).

(** A disk on which the cache file cannot be written. *)
Definition lockedDisk : FileSystem :=
  {| files := ∅; denied := {["/tmp/token.json"]}; short := ∅; unclosed := ∅;
     umask := 18 |}.

(** A message whose [Cc] header is not an address list. *)
Definition badCcMessage : Reader :=
  input ["Subject: hi"; "Cc: not an address"; ""; "hello"].

(** A disk that accepts only ten bytes for the cache file. *)
Definition fullDisk : FileSystem :=
  {| files := ∅; denied := ∅; short := {["/tmp/token.json" := 10%nat]};
     unclosed := ∅; umask := 18 |}.

(** [encoding/json] on a machine whose local zone is UTC, and on one in
    the zone +09:00; the samples give them no document outside the layout
    of [marshalIndent]. *)
Definition utcJson : JsonLib :=
  GoJson (fun _ => 0%Z) (fun _ => Err "not in the layout").
Definition tokyoJson : JsonLib :=
  GoJson (fun _ => 32400%Z) (fun _ => Err "not in the layout").

(** A record whose access token starts with the byte FF. *)
Definition binaryToken : TokenResponse :=
  {| AccessToken := String "255" "abc"; TokenType := "Bearer";
     ExpiresIn := 3600%Z; RefreshToken := "0.AAA-bbb";
     Scope := "User.Read Mail.Send"; CachedAt := 0%Z |}.

End samples.

Import gostd smtp_qp smtp auth config gojson testlib samples.

(** ** Strings and their bytes *)

Lemma length_bytes s : length (bytes s) = String.length s.
Proof. induction s; cbn; auto. Qed.

Lemma length_str l : String.length (str l) = length l.
Proof. induction l; cbn; auto. Qed.

Lemma bytes_str l : bytes (str l) = l.
Proof. apply list_ascii_of_string_of_list_ascii. Qed.

Lemma str_bytes s : str (bytes s) = s.
Proof. apply string_of_list_ascii_of_string. Qed.

Lemma str_app a b : str (a ++ b) = str a +:+ str b.
Proof.
  unfold str. induction a as [|x a IH]; cbn; [reflexivity|].
  rewrite IH. reflexivity.
Qed.


(* ===================================================================== *)
(** * Quoted-printable: the decoder refines its line-by-line description  *)
(* ===================================================================== *)

Lemma Sscanf_02X_hex c1 c2 h1 h2 :
  hexval c1 = Some h1 -> hexval c2 = Some h2 ->
  Sscanf_02X c1 c2 = ascii_of_N (16 * h1 + h2).
Proof. intros H1 H2. unfold Sscanf_02X. now rewrite H1, H2. Qed.

Lemma decodeLine_other c rest :
  Ascii.eqb c EQ = false -> decodeLine (c :: rest) = c :: decodeLine rest.
Proof.
  intros Hc. destruct rest as [|c1 [|c2 rest']]; cbn [decodeLine];
    rewrite ?Hc; reflexivity.
Qed.

Lemma unescape_other c rest :
  Ascii.eqb c EQ = false -> unescape (c :: rest) = c :: unescape rest.
Proof.
  intros Hc. destruct rest as [|c1 [|c2 rest']]; cbn [unescape]; try reflexivity.
  rewrite Hc. destruct (hexval c1), (hexval c2); reflexivity.
Qed.

(** On a line whose escapes are all complete, the index loop and the
    description agree; a newline added at the end is copied through. *)
Lemma decodeLine_unescape_gen n :
  forall l, (length l <= n)%nat -> escapesOk l = true ->
    decodeLine l = unescape l /\ decodeLine (l ++ [LF]) = unescape l ++ [LF].
Proof.
  induction n as [|n IH]; intros l Hlen Hok.
  - destruct l; [split; reflexivity | simpl in Hlen; lia].
  - destruct l as [|c rest]; [split; reflexivity|].
    simpl in Hlen. simpl in Hok.
    destruct (Ascii.eqb c EQ) eqn:Hc.
    + destruct rest as [|c1 [|c2 rest']]; try discriminate.
      unfold isHex in Hok.
      destruct (hexval c1) as [h1|] eqn:H1; [|discriminate].
      destruct (hexval c2) as [h2|] eqn:H2; [|discriminate].
      simpl in Hok, Hlen.
      destruct (IH rest' ltac:(lia) Hok) as [Ha Hb].
      split.
      * simpl. rewrite Hc, H1, H2, Ha.
        now rewrite (Sscanf_02X_hex _ _ _ _ H1 H2).
      * change ((c :: c1 :: c2 :: rest') ++ [LF]) with (c :: c1 :: c2 :: (rest' ++ [LF])).
        cbn [decodeLine unescape]. rewrite Hc, H1, H2, Hb.
        now rewrite (Sscanf_02X_hex _ _ _ _ H1 H2).
    + destruct (IH rest ltac:(lia) Hok) as [Ha Hb].
      change ((c :: rest) ++ [LF]) with (c :: (rest ++ [LF])).
      rewrite !(decodeLine_other _ _ Hc), !(unescape_other _ _ Hc), Ha, Hb.
      split; reflexivity.
Qed.

Lemma decodeLine_unescape l :
  escapesOk l = true -> decodeLine l = unescape l.
Proof. intros H. now apply (decodeLine_unescape_gen (length l) l). Qed.

Lemma decodeLine_unescape_LF l :
  escapesOk l = true -> decodeLine (l ++ [LF]) = unescape l ++ [LF].
Proof. intros H. now apply (decodeLine_unescape_gen (length l) l). Qed.

(** [ReadString] cuts the input at its first newline, in step with
    [splitLines]. *)
Lemma ReadString_LF_spec r :
  match ReadString_LF r with
  | (line, rest, true) => line = r /\ rest = [] /\ splitLines r = [r]
  | (line, rest, false) =>
      exists l, line = l ++ [LF] /\ r = l ++ LF :: rest
                /\ splitLines r = l :: splitLines rest
  end.
Proof.
  induction r as [|c r IH]; cbn [ReadString_LF splitLines].
  - repeat split.
  - destruct (Ascii.eqb c LF) eqn:Hc.
    + apply Ascii.eqb_eq in Hc. subst c. exists []. repeat split.
    + destruct (ReadString_LF r) as [[line rest] [|]].
      * destruct IH as (-> & -> & ->). repeat split.
      * destruct IH as (l & -> & -> & ->). exists (c :: l). repeat split.
Qed.

Lemma TrimRight_snoc_cut l c cutset :
  existsb (Ascii.eqb c) cutset = true ->
  TrimRight (l ++ [c]) cutset = TrimRight l cutset.
Proof.
  intros Hc. induction l as [|x l IH]; cbn [app TrimRight].
  - now rewrite Hc.
  - now rewrite IH.
Qed.

Lemma prepareLine_LF l : prepareLine (l ++ [LF]) = prepareLine l.
Proof. unfold prepareLine. now rewrite TrimRight_snoc_cut. Qed.

(** [HasSuffix line "="] / [TrimSuffix line "="] against [softBreak]. *)
Lemma suffix_EQ_softBreak t :
  match softBreak t with
  | Some l => HasSuffix t [EQ] = true /\ TrimSuffix t [EQ] = l /\ t = l ++ [EQ]
  | None => HasSuffix t [EQ] = false
  end.
Proof.
  unfold softBreak.
  destruct (rev t) as [|c r] eqn:Hr.
  - apply (f_equal (@rev ascii)) in Hr. rewrite rev_involutive in Hr.
    subst t. reflexivity.
  - apply (f_equal (@rev ascii)) in Hr. rewrite rev_involutive in Hr.
    cbn [rev] in Hr. subst t.
    assert (Hs : skipn (length (rev r ++ [c]) - length [EQ]) (rev r ++ [c]) = [c]).
    { rewrite length_app. cbn [length].
      replace (length (rev r) + 1 - 1)%nat with (length (rev r) + 0)%nat by lia.
      rewrite skipn_app, Nat.add_0_r, skipn_all.
      replace (length (rev r) - length (rev r))%nat with 0%nat by lia.
      reflexivity. }
    assert (Hf : firstn (length (rev r ++ [c]) - length [EQ]) (rev r ++ [c]) = rev r).
    { rewrite length_app. cbn [length].
      replace (length (rev r) + 1 - 1)%nat with (length (rev r) + 0)%nat by lia.
      rewrite firstn_app_2. cbn. apply app_nil_r. }
    assert (Hl : (length [EQ] <=? length (rev r ++ [c]))%nat = true).
    { apply Nat.leb_le. rewrite length_app. cbn. lia. }
    destruct (Ascii.eqb c EQ) eqn:Hc.
    + apply Ascii.eqb_eq in Hc. subst c.
      unfold TrimSuffix, HasSuffix. rewrite Hl, Hs. cbn [bytes_eqb andb].
      rewrite Ascii.eqb_refl. cbn. auto.
    + unfold HasSuffix. rewrite Hl, Hs. cbn. now rewrite Hc.
Qed.

(** One round of the loop, on a well-formed line, emits what the
    description says. *)
Lemma codeLine_specLine l :
  lineOk l = true -> decodeLine (prepareLine l) = specLine l.
Proof.
  unfold lineOk, prepareLine, specLine. intros Hok.
  pose proof (suffix_EQ_softBreak (TrimRight l [CR; LF])) as Hs.
  destruct (softBreak (TrimRight l [CR; LF])) as [l'|].
  - destruct Hs as (-> & -> & _). now apply decodeLine_unescape.
  - rewrite Hs. now apply decodeLine_unescape_LF.
Qed.

(** The loop never runs out of rounds, and emits the lines in order. *)
Lemma qpLoop_lines fuel :
  forall r buf, (length r < fuel)%nat ->
    qpLoop fuel r buf
    = buf ++ concat (map (fun l => decodeLine (prepareLine l)) (splitLines r)).
Proof.
  induction fuel as [|fuel IH]; intros r buf Hlen; [lia|].
  cbn [qpLoop].
  pose proof (ReadString_LF_spec r) as Hr.
  destruct (ReadString_LF r) as [[line rest] [|]].
  - destruct Hr as (-> & _ & ->). cbn. now rewrite app_nil_r.
  - destruct Hr as (l & -> & Hr & ->).
    rewrite IH.
    + cbn [map concat]. rewrite prepareLine_LF. now rewrite app_assoc.
    + subst r. rewrite length_app in Hlen. cbn in Hlen. lia.
Qed.

Lemma decodeQuotedPrintable_lines s :
  decodeQuotedPrintable s
  = str (concat (map (fun l => decodeLine (prepareLine l)) (splitLines (bytes s)))).
Proof.
  unfold decodeQuotedPrintable. rewrite qpLoop_lines; [reflexivity|].
  rewrite length_bytes. lia.
Qed.

(** A soft line break: the line [l] (free of newlines), a bare [=], a
    newline, then the rest of the input. *)
Lemma splitLines_app_LF l rest :
  existsb (Ascii.eqb LF) l = false ->
  splitLines (l ++ LF :: rest) = l :: splitLines rest.
Proof.
  induction l as [|c l IH]; intros Hl; cbn [app splitLines].
  - reflexivity.
  - cbn [existsb] in Hl. apply orb_false_iff in Hl as [Hc Hl].
    rewrite Ascii.eqb_sym, Hc, IH by assumption. reflexivity.
Qed.

Lemma TrimRight_snoc_keep l c cutset :
  existsb (Ascii.eqb c) cutset = false ->
  TrimRight (l ++ [c]) cutset = l ++ [c].
Proof.
  intros Hc. induction l as [|x l IH]; cbn [app TrimRight].
  - now rewrite Hc.
  - rewrite IH. destruct l; reflexivity.
Qed.

Lemma prepareLine_soft l : prepareLine (l ++ [EQ]) = l.
Proof.
  unfold prepareLine. rewrite TrimRight_snoc_keep by reflexivity.
  pose proof (suffix_EQ_softBreak (l ++ [EQ])) as Hs.
  unfold softBreak in Hs. rewrite rev_app_distr in Hs. cbn in Hs.
  rewrite rev_involutive in Hs. destruct Hs as (-> & -> & _). reflexivity.
Qed.

(** C4, as the claim states it, at the input ["Caf=C3=A9"]: the decoder
    does not return the four characters of "Café" alone, because the last
    line of the input is emitted followed by a newline as well. *)
Lemma decodeQuotedPrintable_cafe_not_bare :
  decodeQuotedPrintable "Caf=C3=A9" <> "Café".
Proof. vm_compute. discriminate. Qed.

(** C4 (amended): on input in which every [=] either ends its line (soft
    break) or starts a two-hex-digit escape, [decodeQuotedPrintable] is the
    line-by-line decoder [specDecode]: the pieces between newlines are the
    lines (the piece after the last newline included, even when empty),
    trailing CR/LF are dropped, a line that ends in [=] loses it and emits
    no newline, every other line is emitted followed by a newline, [=XX]
    becomes the byte [0xXX] and every other byte is copied.  So
    ["Caf=C3=A9"] decodes to "Café" followed by a newline, and a soft line
    break puts nothing between the decoded line and what follows it. *)
Theorem decodeQuotedPrintable_spec :
  (forall s, wellFormed s = true -> decodeQuotedPrintable s = specDecode s)
  /\ decodeQuotedPrintable "Caf=C3=A9" = "Café" +:+ String LF ""
  /\ (forall l rest, existsb (Ascii.eqb LF) l = false ->
        decodeQuotedPrintable (str (l ++ EQ :: LF :: rest))
        = str (decodeLine l ++ bytes (decodeQuotedPrintable (str rest)))).
Proof.
  split; [|split].
  - intros s Hwf. rewrite decodeQuotedPrintable_lines. unfold specDecode.
    unfold wellFormed in Hwf. do 2 f_equal.
    apply map_ext_in. intros l Hl. apply codeLine_specLine.
    rewrite forallb_forall in Hwf. now apply Hwf.
  - vm_compute. reflexivity.
  - intros l rest Hl. rewrite !decodeQuotedPrintable_lines.
    unfold str, bytes. rewrite !list_ascii_of_string_of_list_ascii.
    f_equal.
    replace (l ++ EQ :: LF :: rest) with ((l ++ [EQ]) ++ LF :: rest)
      by now rewrite <- app_assoc.
    rewrite splitLines_app_LF.
    + cbn [map concat]. now rewrite prepareLine_soft.
    + rewrite existsb_app, Hl. reflexivity.
Qed.

Lemma decodeQuotedPrintable_spec_witness :
  wellFormed "Caf=C3=A9" = true
  /\ decodeQuotedPrintable "Caf=C3=A9" = specDecode "Caf=C3=A9".
Proof.
  split; [reflexivity|].
  apply (proj1 decodeQuotedPrintable_spec "Caf=C3=A9"). reflexivity.
Defined.

(* ===================================================================== *)
(** * Multipart extraction                                                *)
(* ===================================================================== *)

Section Multipart.
Context {lib : MailLib}.

Lemma partsLoop_cons p ps fin textPart htmlPart :
  partsLoop (p :: ps) fin textPart htmlPart
  = partsLoop ps fin (stepText p textPart) (stepHtml p htmlPart).
Proof.
  cbn [partsLoop]. unfold stepText, stepHtml, kindOf, textOf.
  destruct (ParseMediaType (Get (PartHeader p) "Content-Type")) as [[mediaType params] err].
  destruct (ReadAll (PartBody p)) as [partBytes|e].
  - destruct (HasPrefix mediaType "text/plain"); [reflexivity|].
    destruct (HasPrefix mediaType "text/html"); [reflexivity|].
    destruct (HasPrefix mediaType "multipart/"); reflexivity.
  - destruct (HasPrefix mediaType "text/plain"); [reflexivity|].
    destruct (HasPrefix mediaType "text/html"); reflexivity.
Qed.

Lemma contents_cons k p ps :
  contents k (p :: ps)
  = match (if Kind_eqb (kindOf p) k then textOf p else None) with
    | Some t => t :: contents k ps
    | None => contents k ps
    end.
Proof. reflexivity. Qed.

Lemma default_last_cons (d x : string) l :
  default d (last (x :: l)) = default x (last l).
Proof. rewrite last_cons. destruct (last l); reflexivity. Qed.

Lemma stepText_last p ps textPart :
  default (stepText p textPart) (last (contents Plain ps))
  = default textPart (last (contents Plain (p :: ps))).
Proof.
  rewrite contents_cons. unfold stepText.
  destruct (kindOf p); cbn [Kind_eqb]; try reflexivity.
  destruct (textOf p); [|reflexivity].
  now rewrite default_last_cons.
Qed.

Lemma stepHtml_last p ps htmlPart :
  default (stepHtml p htmlPart) (last (contents Html ps))
  = default htmlPart (last (contents Html (p :: ps))).
Proof.
  rewrite contents_cons. unfold stepHtml.
  destruct (kindOf p); cbn [Kind_eqb]; try reflexivity.
  destruct (textOf p); [|reflexivity].
  now rewrite default_last_cons.
Qed.

(** The loop leaves in each variable the last readable part of its kind,
    or the initial value when there is none. *)
Lemma partsLoop_last ps : forall fin textPart htmlPart,
  partsLoop ps fin textPart htmlPart
  = match fin with
    | Some e => Err e
    | None => chooseBody (default textPart (last (contents Plain ps)))
                         (default htmlPart (last (contents Html ps)))
    end.
Proof.
  induction ps as [|p ps IH]; intros fin textPart htmlPart.
  - reflexivity.
  - rewrite partsLoop_cons, IH. destruct fin; [reflexivity|].
    now rewrite stepText_last, stepHtml_last.
Qed.

Lemma contents_filter k (keep : Part -> bool) ps :
  (forall p, Kind_eqb (kindOf p) k = true -> keep p = true) ->
  contents k (List.filter keep ps) = contents k ps.
Proof.
  intros Hkeep. induction ps as [|p ps IH]; [reflexivity|].
  cbn [List.filter]. destruct (keep p) eqn:Hp.
  - rewrite !contents_cons, IH. reflexivity.
  - rewrite contents_cons, IH.
    destruct (Kind_eqb (kindOf p) k) eqn:Hk; [|reflexivity].
    rewrite (Hkeep p Hk) in Hp. discriminate.
Qed.

Lemma contents_filter_out k ps :
  contents k (List.filter (fun p => negb (Kind_eqb (kindOf p) k)) ps) = [].
Proof.
  induction ps as [|p ps IH]; [reflexivity|].
  cbn [List.filter]. destruct (Kind_eqb (kindOf p) k) eqn:Hk; cbn [negb].
  - exact IH.
  - rewrite contents_cons, Hk. exact IH.
Qed.

End Multipart.

(** The examples of the specification: plain and HTML parts, a plain part
    alone, no text part. *)
Example extractMultipartBody_examples :
  extractMultipartBody (lib := TestLib)
    (input ["--B"; "Content-Type: text/plain"; ""; "Hello";
            "--B"; "Content-Type: text/html; charset=utf-8"; ""; "<b>Hello</b>";
            "--B--"]) "B" = Ok ("<b>Hello</b>", true)
  /\ extractMultipartBody (lib := TestLib)
       (input ["--B"; "Content-Type: text/plain"; ""; "Hello"; "--B--"]) "B"
     = Ok ("Hello", false)
  /\ extractMultipartBody (lib := TestLib)
       (input ["--B"; "Content-Type: image/png"; ""; "iVBORw0KGgo="; "--B--"]) "B"
     = Err errNoBody.
Proof. vm_compute. repeat split. Qed.

(** C1, as the claim states it, on a body with the [text/plain] parts
    "first" and "second", in this order: the first such part encountered is
    "first", yet the extraction returns "second". *)
Lemma extractMultipartBody_not_first :
  firstOf (lib := TestLib) Plain (parts (NewReader (MailLib := TestLib) twoPlainBody "B"))
    = "first"
  /\ extractMultipartBody (lib := TestLib) twoPlainBody "B" = Ok ("second", false)
  /\ extractMultipartBody (lib := TestLib) twoPlainBody "B" <> Ok ("first", false).
Proof. vm_compute. repeat split. discriminate. Qed.

(** C1 (amended): the extraction goes through the parts in the order the
    part reader yields them and retains the last readable [text/plain]
    part and the last readable [text/html] part (a later part of a kind
    replaces an earlier one); parts of any other type, nested
    [multipart/*] included, are skipped without recursion, so that
    dropping them from the sequence changes nothing.  When the part reader
    ends with an error other than end of input, that error is returned.
    Otherwise the result is the retained HTML part with [isHTML = true]
    when it is not empty, else the retained plain part with
    [isHTML = false] when it is not empty, else the no-body-found error. *)
Theorem extractMultipartBody_spec {lib : MailLib} (body : Reader) (boundary : string) :
  let mr := NewReader body boundary in
  extractMultipartBody body boundary
  = match final mr with
    | Some e => Err e
    | None =>
        let html := lastOf Html (parts mr) in
        let text := lastOf Plain (parts mr) in
        if negb (String.eqb html "") then Ok (html, true)
        else if negb (String.eqb text "") then Ok (text, false)
        else Err errNoBody
    end
  /\ extractMultipartBody body boundary
     = partsLoop (List.filter (fun p => negb (Kind_eqb (kindOf p) Skipped)) (parts mr))
                 (final mr) "" "".
Proof.
  intros mr. unfold extractMultipartBody. fold mr. split.
  - rewrite partsLoop_last. reflexivity.
  - rewrite !partsLoop_last.
    rewrite !contents_filter; [reflexivity| |];
      intros p Hp; destruct (kindOf p); cbn in *; congruence.
Qed.

(** C10: a retained part whose decoded content is the empty string counts
    as no part of its kind.  When the retained HTML part is empty the
    outcome is that of the same sequence without its HTML parts, and
    likewise for plain parts; so an empty HTML part does not take priority
    over a non-empty plain part, and when every readable [text/plain] and
    [text/html] part decodes to the empty string the extraction fails with
    the no-body-found error. *)
Theorem extractMultipartBody_empty_part {lib : MailLib} (ps : list Part) :
  (forall fin, lastOf Html ps = "" ->
     partsLoop ps fin "" ""
     = partsLoop (List.filter (fun p => negb (Kind_eqb (kindOf p) Html)) ps) fin "" "")
  /\ (forall fin, lastOf Plain ps = "" ->
        partsLoop ps fin "" ""
        = partsLoop (List.filter (fun p => negb (Kind_eqb (kindOf p) Plain)) ps) fin "" "")
  /\ (lastOf Html ps = "" -> lastOf Plain ps <> "" ->
        partsLoop ps None "" "" = Ok (lastOf Plain ps, false))
  /\ (Forall (fun p => kindOf p <> Skipped -> forall t, textOf p = Some t -> t = "") ps ->
        partsLoop ps None "" "" = Err errNoBody).
Proof.
  split; [|split; [|split]].
  - intros fin Hh. rewrite !partsLoop_last. destruct fin; [reflexivity|].
    rewrite contents_filter_out.
    rewrite contents_filter
      by (intros p Hp; destruct (kindOf p); cbn in *; congruence).
    unfold lastOf in Hh. rewrite Hh. reflexivity.
  - intros fin Ht. rewrite !partsLoop_last. destruct fin; [reflexivity|].
    rewrite contents_filter_out.
    rewrite contents_filter
      by (intros p Hp; destruct (kindOf p); cbn in *; congruence).
    unfold lastOf in Ht. rewrite Ht. reflexivity.
  - intros Hh Ht. rewrite partsLoop_last. fold (lastOf Plain ps) (lastOf Html ps).
    rewrite Hh. unfold chooseBody. cbn [String.eqb negb].
    destruct (String.eqb_spec (lastOf Plain ps) ""); [contradiction|reflexivity].
  - intros Hall. rewrite partsLoop_last.
    assert (Hk : forall k, k <> Skipped -> default "" (last (contents k ps)) = "").
    { intros k Hk. induction Hall as [|p ps Hp Hall IH]; [reflexivity|].
      rewrite contents_cons.
      destruct (Kind_eqb (kindOf p) k) eqn:Hpk; [|exact IH].
      destruct (textOf p) as [t|] eqn:Ht; [|exact IH].
      rewrite default_last_cons.
      assert (kindOf p <> Skipped) as Hns
          by (destruct (kindOf p), k; cbn in Hpk; congruence).
      rewrite (Hp Hns t eq_refl).
      exact IH. }
    rewrite !Hk by discriminate. reflexivity.
Qed.

Lemma extractMultipartBody_empty_part_witness :
  lastOf (lib := TestLib) Html emptyHtmlParts = ""
  /\ lastOf (lib := TestLib) Plain emptyHtmlParts <> ""
  /\ partsLoop (lib := TestLib) emptyHtmlParts None "" "" = Ok ("Hello", false).
Proof.
  assert (Hh : lastOf (lib := TestLib) Html emptyHtmlParts = "") by (vm_compute; reflexivity).
  assert (Ht : lastOf (lib := TestLib) Plain emptyHtmlParts <> "") by (vm_compute; discriminate).
  split; [exact Hh|]. split; [exact Ht|].
  exact (proj1 (proj2 (proj2 (extractMultipartBody_empty_part (lib := TestLib) emptyHtmlParts))) Hh Ht).
Defined.

(* ===================================================================== *)
(** * Session commands and message submission                             *)
(* ===================================================================== *)

Section Submission.
Context {lib : MailLib}.

(** What [Data] does once the message is parsed. *)
Lemma Data_parsed (s : Session) (r : Reader) (msg : Message) :
  ReadMessage r = Ok msg ->
  Data s r
  = let subject := decodeHeader (Get (Header msg) "Subject") in
    let body := fst (bodyOf msg) in
    let isHTML := snd (bodyOf msg) in
    match ccOf msg, to s with
    | _ :: _, _ =>
        let call := SendMailWithMultipleRecipients (to s) (ccOf msg) subject body isHTML in
        (wrapSendError (graphClient (backend s) call), [call])
    | [], to0 :: _ =>
        let call := SendMail to0 subject body isHTML in
        (wrapSendError (graphClient (backend s) call), [call])
    | [], [] => (Some "受信者が指定されていません", [])
    end.
Proof.
  intros Hr. unfold Data. rewrite Hr.
  destruct (bodyOf msg) as [body isHTML]. cbn [fst snd].
  destruct (ccOf msg) as [|c cc]; cbn [length Nat.ltb Nat.leb]; reflexivity.
Qed.

End Submission.

(** C2, as the claim states it, for a session without recipients and a
    message carrying a [Cc] header: the submission succeeds and the
    multi-recipient send is invoked, with an empty recipient list. *)
Lemma Data_no_rcpt_with_cc_sends :
  let s := NewSession testBackend in
  let r := input ["Subject: hi"; "Cc: carol@example.com"; ""; "hello"] in
  to s = []
  /\ Data (lib := TestLib) s r
     = (None, [SendMailWithMultipleRecipients [] ["carol@example.com"] "hi"
                 (text ["hello"]) false]).
Proof. vm_compute. split; reflexivity. Qed.

(** C2 (amended): when the recipient list is empty at submission and the
    message yields no CC address (it does not parse, has no [Cc] header, or
    the header does not parse into addresses), the submission fails and
    neither send of the Graph client is invoked. *)
Theorem Data_no_recipients {lib : MailLib} (s : Session) (r : Reader) :
  to s = [] ->
  (forall msg, ReadMessage r = Ok msg -> ccOf msg = []) ->
  exists e, Data s r = (Some e, []).
Proof.
  intros Hto Hcc. destruct (ReadMessage r) as [msg|e] eqn:Hr.
  - rewrite (Data_parsed s r msg Hr), (Hcc msg eq_refl), Hto. cbn. eauto.
  - unfold Data. rewrite Hr. eauto.
Qed.

Lemma Data_no_recipients_witness :
  exists e, Data (lib := TestLib) (NewSession testBackend)
              (input ["Subject: hi"; ""; "hello"]) = (Some e, []).
Proof.
  apply (Data_no_recipients (lib := TestLib)).
  - reflexivity.
  - intros msg Hr. vm_compute in Hr. injection Hr as <-. vm_compute. reflexivity.
Defined.

(** C5: once the message is parsed, a non-empty CC list makes [Data] call
    the multi-recipient send, once, with the whole recipient list and the
    whole CC list; an empty CC list makes it call the single-recipient
    send, once, with the first declared recipient and no other. *)
Theorem Data_send_path {lib : MailLib} (s : Session) (r : Reader) (msg : Message) :
  ReadMessage r = Ok msg ->
  let subject := decodeHeader (Get (Header msg) "Subject") in
  let body := fst (bodyOf msg) in
  let isHTML := snd (bodyOf msg) in
  (ccOf msg <> [] ->
     snd (Data s r)
     = [SendMailWithMultipleRecipients (to s) (ccOf msg) subject body isHTML])
  /\ (ccOf msg = [] -> forall to0 others, to s = to0 :: others ->
        snd (Data s r) = [SendMail to0 subject body isHTML]).
Proof.
  intros Hr subject body isHTML. rewrite (Data_parsed s r msg Hr). split.
  - intros Hcc. destruct (ccOf msg); [contradiction|reflexivity].
  - intros Hcc to0 others Hto. rewrite Hcc, Hto. reflexivity.
Qed.

Lemma Data_send_path_witness :
  snd (Data (lib := TestLib) twoRcpt ccMessage)
  = [SendMailWithMultipleRecipients ["alice@example.com"; "bob@example.com"]
       ["carol@example.com"] "hi" (text ["hello"]) false]
  /\ snd (Data (lib := TestLib) twoRcpt plainMessage)
     = [SendMail "alice@example.com" "hi" (text ["hello"]) false].
Proof.
  assert (Hc : ReadMessage (MailLib := TestLib) ccMessage = Ok (parsed ccMessage))
    by (vm_compute; reflexivity).
  assert (Hp : ReadMessage (MailLib := TestLib) plainMessage = Ok (parsed plainMessage))
    by (vm_compute; reflexivity).
  split.
  - apply (proj1 (Data_send_path (lib := TestLib) twoRcpt ccMessage _ Hc)).
    vm_compute. discriminate.
  - apply (proj2 (Data_send_path (lib := TestLib) twoRcpt plainMessage _ Hp)
             ltac:(vm_compute; reflexivity) "alice@example.com" ["bob@example.com"]).
    reflexivity.
Defined.

(** C9: when the message parses and the body extraction fails, [Data]
    sends the placeholder body with [isHTML = false]: the send that the
    recipients and the CC list select is made, once, and the error of the
    extraction is not returned (the outcome is that of the send). *)
Theorem Data_extraction_failure {lib : MailLib}
        (s : Session) (r : Reader) (msg : Message) (e : error) :
  ReadMessage r = Ok msg ->
  extractBody msg = Err e ->
  let subject := decodeHeader (Get (Header msg) "Subject") in
  (ccOf msg <> [] ->
     let call := SendMailWithMultipleRecipients (to s) (ccOf msg) subject
                   placeholderBody false in
     Data s r = (wrapSendError (graphClient (backend s) call), [call]))
  /\ (ccOf msg = [] -> forall to0 others, to s = to0 :: others ->
        let call := SendMail to0 subject placeholderBody false in
        Data s r = (wrapSendError (graphClient (backend s) call), [call])).
Proof.
  intros Hr He subject. rewrite (Data_parsed s r msg Hr).
  unfold bodyOf. rewrite He. cbn [fst snd]. split.
  - intros Hcc. destruct (ccOf msg); [contradiction|reflexivity].
  - intros Hcc to0 others Hto. rewrite Hcc, Hto. reflexivity.
Qed.

Lemma Data_extraction_failure_witness :
  Data (lib := TestLib) twoRcpt noTextMessage
  = (None, [SendMail "alice@example.com" "picture" placeholderBody false]).
Proof.
  assert (Hr : ReadMessage (MailLib := TestLib) noTextMessage = Ok (parsed noTextMessage))
    by (vm_compute; reflexivity).
  assert (He : extractBody (lib := TestLib) (parsed noTextMessage) = Err errNoBody)
    by (vm_compute; reflexivity).
  apply (proj2 (Data_extraction_failure (lib := TestLib) twoRcpt noTextMessage _ _ Hr He)
           ltac:(vm_compute; reflexivity) "alice@example.com" ["bob@example.com"]).
  reflexivity.
Defined.

(** C6, as the claim states it, for a session that has authenticated: after
    [Reset] the flag is still set, so the state is not that of a fresh
    connection. *)
Lemma Reset_keeps_authenticated :
  let s := fst (plainAuthenticator (NewSession testBackend) "" "user" "secret") in
  authenticated s = true
  /\ authenticated (Reset s) = true
  /\ Reset s <> NewSession (backend s).
Proof. cbn. repeat split. discriminate. Qed.

(** C6 (amended): [Reset] empties the sender address and the recipient
    list and leaves the authenticated flag and the backend as they are;
    for a session that has not authenticated this is the state of a fresh
    connection.  The session stays usable: a recipient declared after the
    reset is the only one. *)
Theorem Reset_spec (s : Session) :
  from (Reset s) = ""
  /\ to (Reset s) = []
  /\ authenticated (Reset s) = authenticated s
  /\ backend (Reset s) = backend s
  /\ (authenticated s = false -> Reset s = NewSession (backend s))
  /\ (forall rcpt, to (fst (Rcpt (Reset s) rcpt)) = [rcpt]).
Proof.
  repeat split. intros Ha. unfold Reset, NewSession. now rewrite Ha.
Qed.

Lemma Reset_spec_witness :
  Reset twoRcpt = NewSession (backend twoRcpt).
Proof.
  apply (proj1 (proj2 (proj2 (proj2 (proj2 (Reset_spec twoRcpt)))))). reflexivity.
Defined.

(* ===================================================================== *)
(** * Token expiry and the token cache                                    *)
(* ===================================================================== *)

Local Open Scope Z_scope.

Lemma wrap64_small x : - 2 ^ 63 <= x < 2 ^ 63 -> wrap64 x = x.
Proof. intros H. unfold wrap64. rewrite Z.mod_small; lia. Qed.

Lemma seconds_exact n :
  - 2 ^ 63 <= n * Second < 2 ^ 63 -> seconds n = n * Second.
Proof.
  intros H. unfold seconds, Second in *.
  rewrite (wrap64_small n) by lia. now apply wrap64_small.
Qed.

Lemma seconds_buffer : seconds tokenBufferSecs = 300 * Second.
Proof. reflexivity. Qed.

(** C3, as the claim states it, at the instant where [now] plus the buffer
    equals the expiry time exactly: the inequality of the claim holds, and
    [IsExpired] is false.  (And for a lifetime of 10^10 seconds the 64-bit
    duration wraps around: the inequality of the claim fails, and
    [IsExpired] is true.) *)
Lemma IsExpired_false_at_equality :
  let tr := {| AccessToken := "a"; TokenType := "Bearer"; ExpiresIn := 3600;
               RefreshToken := "r"; Scope := "s"; CachedAt := 1 * Second |} in
  let now := 3301 * Second in
  (now + 300 * Second >= CachedAt tr + ExpiresIn tr * Second
   /\ IsExpired tr now = false)
  /\ (let long := {| AccessToken := "a"; TokenType := "Bearer";
                     ExpiresIn := 10 ^ 10; RefreshToken := "r"; Scope := "s";
                     CachedAt := 1 * Second |} in
      ~ (2 * Second + 300 * Second >= CachedAt long + ExpiresIn long * Second)
      /\ IsExpired long (2 * Second) = true).
Proof.
  vm_compute. split; split; try reflexivity; try discriminate.
  intros H. apply H. reflexivity.
Qed.

(** C3 (amended): for a record whose lifetime in nanoseconds fits a 64-bit
    duration, [IsExpired] is true exactly when [cachedAt] is the zero time
    or [now] plus 300 seconds is strictly after [cachedAt] plus
    [expiresInSeconds]; in particular it is true whenever [cachedAt] is
    zero, and with a lifetime of 3600 seconds a record cached 3000 seconds
    ago is not expired while one cached 3400 seconds ago is. *)
Theorem IsExpired_spec (tr : TokenResponse) (now : Time) :
  - 2 ^ 63 <= ExpiresIn tr * Second < 2 ^ 63 ->
  (IsExpired tr now = true
   <-> CachedAt tr = 0
       \/ CachedAt tr + ExpiresIn tr * Second < now + 300 * Second)
  /\ (CachedAt tr = 0 -> IsExpired tr now = true)
  /\ (ExpiresIn tr = 3600 -> CachedAt tr <> 0 ->
      CachedAt tr = now - 3000 * Second -> IsExpired tr now = false)
  /\ (ExpiresIn tr = 3600 ->
      CachedAt tr = now - 3400 * Second -> IsExpired tr now = true).
Proof.
  intros Hr.
  assert (Hiff : IsExpired tr now = true
                 <-> CachedAt tr = 0
                     \/ CachedAt tr + ExpiresIn tr * Second < now + 300 * Second).
  { unfold IsExpired, IsZero, After, Add.
    rewrite seconds_buffer, (seconds_exact _ Hr).
    destruct (Z.eqb_spec (CachedAt tr) 0) as [H0|H0].
    - split; auto.
    - rewrite Z.ltb_lt. split; [auto|]. intros [H|H]; [contradiction|exact H]. }
  split; [exact Hiff|]. split; [|split].
  - intros H0. apply Hiff. now left.
  - intros He Hn Hc. apply not_true_is_false. rewrite Hiff.
    unfold Second in *. rewrite He. lia.
  - intros He Hc. apply Hiff. right. unfold Second in *. rewrite He. lia.
Qed.

Lemma IsExpired_spec_witness :
  let tr := {| AccessToken := "a"; TokenType := "Bearer"; ExpiresIn := 3600;
               RefreshToken := "r"; Scope := "s"; CachedAt := 1000 * Second |} in
  IsExpired tr (4000 * Second) = false /\ IsExpired tr (4400 * Second) = true.
Proof.
  intros tr. split.
  - apply (proj1 (proj2 (proj2 (IsExpired_spec tr (4000 * Second)
                                  ltac:(vm_compute; split; [discriminate | reflexivity])))));
      [reflexivity | vm_compute; discriminate | reflexivity].
  - apply (proj2 (proj2 (proj2 (IsExpired_spec tr (4400 * Second)
                                  ltac:(vm_compute; split; [discriminate | reflexivity])))));
      reflexivity.
Defined.

Local Close Scope Z_scope.

(** ** Saving to the cache file *)

(** What [SaveToken] does, case by case. *)
Lemma SaveToken_cases {json : JsonLib} (tcm : TokenCacheManager) (fs : FileSystem)
      (token : TokenResponse) (now : Time) :
  let stamped :=
    {| AccessToken := AccessToken token; TokenType := TokenType token;
       ExpiresIn := ExpiresIn token; RefreshToken := RefreshToken token;
       Scope := Scope token; CachedAt := now |} in
  SaveToken tcm fs token now
  = match MarshalIndent stamped with
    | Err e => (fs, stamped, Some e)
    | Ok data =>
        if decide (filePath tcm ∈ denied fs)
        then (fs, stamped, Some "permission denied")
        else
          let written := match short fs !! filePath tcm with
                         | Some n => firstn n (bytes data)
                         | None => bytes data
                         end in
          ({| files := <[filePath tcm :=
                           (str written,
                            match files fs !! filePath tcm with
                            | Some (_, p) => p
                            | None => N.ldiff 384 (umask fs)
                            end)]> (files fs);
              denied := denied fs; short := short fs;
              unclosed := unclosed fs; umask := umask fs |}, stamped,
           if (length written <? String.length data)%nat
           then Some "no space left on device"
           else if decide (filePath tcm ∈ unclosed fs)
                then Some "input/output error" else None)
    end.
Proof.
  intros stamped. unfold SaveToken, WriteFile. fold stamped.
  destruct (MarshalIndent stamped); [|reflexivity].
  destruct (decide (filePath tcm ∈ denied fs)); reflexivity.
Qed.

Lemma firstn_whole {A} n (l : list A) :
  (length (firstn n l) <? length l)%nat = false -> firstn n l = l.
Proof.
  rewrite Nat.ltb_ge, length_firstn. intros H.
  apply firstn_all2. lia.
Qed.

(** A successful [SaveToken] leaves the whole marshalled record in the
    cache file. *)
Lemma SaveToken_success {json : JsonLib} (tcm : TokenCacheManager) (fs : FileSystem)
      (token : TokenResponse) (now : Time) :
  snd (SaveToken tcm fs token now) = None ->
  exists data,
    MarshalIndent (snd (fst (SaveToken tcm fs token now))) = Ok data
    /\ (filePath tcm ∉ denied fs)
    /\ denied (fst (fst (SaveToken tcm fs token now))) = denied fs
    /\ files (fst (fst (SaveToken tcm fs token now)))
       = <[filePath tcm := (data, match files fs !! filePath tcm with
                                  | Some (_, p) => p
                                  | None => N.ldiff 384 (umask fs)
                                  end)]> (files fs).
Proof.
  rewrite SaveToken_cases. cbn zeta.
  set (stamped := {| AccessToken := AccessToken token; CachedAt := now |}).
  destruct (MarshalIndent stamped) as [data|e] eqn:Hm; [|cbn; discriminate].
  destruct (decide (filePath tcm ∈ denied fs)) as [Hd|Hd]; [cbn; discriminate|].
  cbn [fst snd files denied]. intros Hw. exists data.
  split; [exact Hm|]. split; [exact Hd|]. split; [reflexivity|].
  rewrite <- length_bytes in Hw.
  destruct (Nat.ltb _ (length (bytes data))) eqn:Hlt; [discriminate|].
  destruct (short fs !! filePath tcm) as [n|].
  - rewrite (firstn_whole _ _ Hlt), str_bytes. reflexivity.
  - rewrite str_bytes. reflexivity.
Qed.

Lemma SaveToken_stamped {json : JsonLib} (tcm : TokenCacheManager) (fs : FileSystem)
      (token : TokenResponse) (now : Time) :
  snd (fst (SaveToken tcm fs token now))
  = {| AccessToken := AccessToken token; TokenType := TokenType token;
       ExpiresIn := ExpiresIn token; RefreshToken := RefreshToken token;
       Scope := Scope token; CachedAt := now |}.
Proof.
  rewrite SaveToken_cases. cbn zeta.
  destruct (MarshalIndent _); [|reflexivity].
  destruct (decide (filePath tcm ∈ denied fs)); reflexivity.
Qed.

(** A record in the cache file that is not expired is loaded. *)
Lemma LoadToken_from_file {json : JsonLib} (tcm : TokenCacheManager) (fs : FileSystem)
      (now : Time) (data : string) (perm : N) (token : TokenResponse) :
  filePath tcm ∉ denied fs ->
  files fs !! filePath tcm = Some (data, perm) ->
  Unmarshal data = Ok token ->
  IsExpired token now = false ->
  LoadToken tcm fs now = Ok token.
Proof.
  intros Hd Hf Hu He. unfold LoadToken, ReadFile.
  destruct (decide (filePath tcm ∈ denied fs)); [contradiction|].
  now rewrite Hf, Hu, He.
Qed.

(* ===================================================================== *)
(** * The token cache with Go's codec: what is saved is what is loaded    *)
(* ===================================================================== *)

(** ** The calendar *)

Local Open Scope Z_scope.

Lemma allFrom_spec n : forall z p,
  allFrom n z p = true -> forall x, z <= x < z + Z.of_nat n -> p x = true.
Proof.
  induction n as [|n IH]; intros z p H x Hx; [lia|].
  cbn [allFrom] in H. apply andb_prop in H as [Hz Hn].
  destruct (Z.eq_dec x z) as [->|Hne]; [exact Hz|].
  apply (IH (z + 1) p Hn). lia.
Qed.

Lemma monthDayOk_all doy : 0 <= doy <= 365 -> monthDayOk doy = true.
Proof.
  intros H. apply (allFrom_spec 366 0).
  - vm_compute. reflexivity.
  - lia.
Qed.

Lemma isLeap_cycle era y : isLeap (era * 400 + y) = isLeap y.
Proof.
  unfold isLeap.
  replace ((era * 400 + y) mod 4) with (y mod 4)
    by (replace (era * 400 + y) with (y + (era * 100) * 4) by lia;
        now rewrite Z_mod_plus_full).
  replace ((era * 400 + y) mod 100) with (y mod 100)
    by (replace (era * 400 + y) with (y + (era * 4) * 100) by lia;
        now rewrite Z_mod_plus_full).
  replace ((era * 400 + y) mod 400) with (y mod 400)
    by (replace (era * 400 + y) with (y + era * 400) by lia;
        now rewrite Z_mod_plus_full).
  reflexivity.
Qed.

Lemma daysIn_cycle m era y : daysIn m (era * 400 + y) = daysIn m y.
Proof. unfold daysIn. now rewrite isLeap_cycle. Qed.

Lemma daysIn_common m y : daysIn m 1 <= daysIn m y.
Proof.
  unfold daysIn. destruct (m =? 2); [|lia].
  change (isLeap 1) with false. destruct (isLeap y); lia.
Qed.

(** A day of the 400-year cycle gives a date of the calendar, and the
    date gives the day back. *)
Lemma dateOfCycleDay_spec doe yoe m d :
  0 <= doe < 146097 ->
  dateOfCycleDay doe = (yoe, m, d) ->
  0 <= yoe <= 399 /\ 1 <= m <= 12
  /\ 1 <= d <= daysIn m (yoe + (if m <=? 2 then 1 else 0))
  /\ cycleDayOfDate yoe m d = doe.
Proof.
  intros Hdoe. unfold dateOfCycleDay, cycleDayOfDate.
  set (y := (doe - doe / 1460 + doe / 36524 - doe / 146096) / 365).
  set (doy := doe - (365 * y + y / 4 - y / 100)).
  assert (Hy : 0 <= y <= 399) by (unfold y; Z.div_mod_to_equations; lia).
  assert (Hdoy : 0 <= doy <= 365)
    by (unfold doy, y; Z.div_mod_to_equations; lia).
  assert (Hleap : doy = 365 -> isLeap (y + 1) = true).
  { intros E.
    assert (H4 : (y + 1) mod 4 = 0
                 /\ ((y + 1) mod 100 <> 0 \/ (y + 1) mod 400 = 0))
      by (unfold doy, y in *; Z.div_mod_to_equations; lia).
    destruct H4 as [H4 H100]. unfold isLeap.
    rewrite (proj2 (Z.eqb_eq _ _) H4). cbn [andb].
    destruct H100 as [H100|H400].
    - apply Z.eqb_neq in H100. now rewrite H100.
    - rewrite (proj2 (Z.eqb_eq _ _) H400). apply orb_true_r. }
  pose proof (monthDayOk_all doy Hdoy) as Hok. unfold monthDayOk in Hok.
  set (mp := (5 * doy + 2) / 153) in *.
  set (d' := doy - (153 * mp + 2) / 5 + 1) in *.
  set (m' := if mp <? 10 then mp + 3 else mp - 9) in *.
  intros H.
  assert (Hyoe : yoe = y) by congruence.
  assert (Hm : m = m') by congruence.
  assert (Hd : d = d') by congruence.
  subst yoe m d. clear H.
  apply andb_prop in Hok as [Hok Hmp]. apply andb_prop in Hok as [Hok Hlen].
  apply andb_prop in Hok as [Hok Hd1]. apply andb_prop in Hok as [Hm1 Hm12].
  apply Z.leb_le in Hm1, Hm12, Hd1. apply Z.eqb_eq in Hmp.
  split; [exact Hy|]. split; [lia|]. split; [split; [exact Hd1|]|].
  - destruct (doy =? 365) eqn:E.
    + apply Z.eqb_eq in E. apply andb_prop in Hlen as [H2 H29].
      apply Z.eqb_eq in H2, H29. rewrite H2, H29.
      change (2 <=? 2) with true. cbv iota. unfold daysIn.
      change (2 =? 2) with true. cbv iota. now rewrite (Hleap E).
    + apply Z.leb_le in Hlen. pose proof (daysIn_common m' (y + (if m' <=? 2 then 1 else 0))). lia.
  - rewrite Hmp. unfold d', doy. lia.
Qed.

(** The date of a day number is a date of the calendar, and [daysOf]
    gives the day number back. *)
Lemma date_daysOf days year m d :
  date days = (year, m, d) ->
  1 <= m <= 12 /\ 1 <= d <= daysIn m year /\ daysOf year m d = days.
Proof.
  unfold date.
  assert (Hdoe : 0 <= (days + 306) mod 146097 < 146097)
    by (apply Z.mod_pos_bound; lia).
  pose proof (Z.div_mod (days + 306) 146097 ltac:(lia)) as Hdm.
  set (era := (days + 306) / 146097) in *.
  set (doe := (days + 306) mod 146097) in *.
  destruct (dateOfCycleDay doe) as [[yoe m'] d'] eqn:Hc.
  apply dateOfCycleDay_spec in Hc as (Hyoe & Hm & Hd & Hback); [|exact Hdoe].
  intros H.
  assert (Hy : year = era * 400 + (yoe + (if m' <=? 2 then 1 else 0)))
    by (injection H; lia).
  assert (Hm' : m = m') by congruence.
  assert (Hd' : d = d') by congruence.
  subst year m d. clear H.
  rewrite daysIn_cycle.
  split; [lia|]. split; [lia|].
  unfold daysOf.
  replace (era * 400 + (yoe + (if m' <=? 2 then 1 else 0))
           - (if m' <=? 2 then 1 else 0)) with (yoe + era * 400) by lia.
  rewrite Z_div_plus_full, Z_mod_plus_full by lia.
  rewrite Z.div_small, Z.mod_small by lia.
  lia.
Qed.

(** ** Decimal digits *)

Lemma digit_spec d :
  0 <= d <= 9 ->
  isDigit (digit d) = true /\ Z.of_N (N_of_ascii (digit d)) - 48 = d.
Proof.
  intros H.
  assert (Hd : d = 0 \/ d = 1 \/ d = 2 \/ d = 3 \/ d = 4 \/ d = 5 \/ d = 6
               \/ d = 7 \/ d = 8 \/ d = 9) by lia.
  repeat (destruct Hd as [->|Hd]; [split; reflexivity|]).
  subst d. split; reflexivity.
Qed.

Lemma isDigit_digit_mod v : isDigit (digit (v mod 10)) = true.
Proof. apply digit_spec. pose proof (Z.mod_pos_bound v 10). lia. Qed.

Lemma atoi_app l1 : forall acc l2,
  atoi acc (l1 ++ l2)
  = match atoi acc l1 with Some x => atoi x l2 | None => None end.
Proof.
  induction l1 as [|c l1 IH]; intros acc l2; cbn [atoi app]; [reflexivity|].
  destruct (isDigit c); [apply IH|reflexivity].
Qed.

Lemma atoi_digits n : forall acc v,
  atoi acc (digits n v) = Some (acc * 10 ^ Z.of_nat n + v mod 10 ^ Z.of_nat n).
Proof.
  induction n as [|n IH]; intros acc v.
  - cbn. rewrite Z.mod_1_r. f_equal. lia.
  - cbn [digits]. rewrite atoi_app, IH. cbn [atoi].
    rewrite isDigit_digit_mod.
    rewrite (proj2 (digit_spec (v mod 10) ltac:(pose proof (Z.mod_pos_bound v 10); lia))).
    f_equal. rewrite Nat2Z.inj_succ, Z.pow_succ_r by lia.
    rewrite (Z.rem_mul_r v 10 (10 ^ Z.of_nat n)) by lia. lia.
Qed.

Lemma Forall_isDigit_digits n : forall v,
  Forall (fun c => isDigit c = true) (digits n v).
Proof.
  induction n as [|n IH]; intros v; cbn [digits]; [constructor|].
  apply Forall_app. split; [apply IH|].
  constructor; [apply isDigit_digit_mod|constructor].
Qed.

Lemma length_digits n : forall v, length (digits n v) = n.
Proof.
  induction n as [|n IH]; intros v; cbn [digits]; [reflexivity|].
  rewrite length_app, IH. cbn. lia.
Qed.

Lemma parseUint_2 v lo hi :
  0 <= v < 100 -> lo <= v <= hi ->
  parseUint [digit (v / 10); digit (v mod 10)] lo hi = Some v.
Proof.
  intros Hv Hr. unfold parseUint. cbn [atoi].
  destruct (digit_spec (v / 10)) as [-> ->];
    [split; [apply Z.div_pos; lia|apply Z.lt_succ_r, Z.div_lt_upper_bound; lia]|].
  destruct (digit_spec (v mod 10)) as [-> ->]; [pose proof (Z.mod_pos_bound v 10); lia|].
  replace (((0 * 10 + v / 10) * 10 + v mod 10)) with v
    by (pose proof (Z.div_mod v 10); lia).
  destruct (v <? lo) eqn:H1; [lia|]. destruct (hi <? v) eqn:H2; [lia|].
  reflexivity.
Qed.

Lemma parseUint_4 v lo hi :
  0 <= v <= 9999 -> lo <= v <= hi ->
  parseUint [digit (v / 1000); digit (v / 100 mod 10); digit (v / 10 mod 10);
             digit (v mod 10)] lo hi = Some v.
Proof.
  intros Hv Hr. unfold parseUint. cbn [atoi].
  destruct (digit_spec (v / 1000)) as [-> ->];
    [split; [apply Z.div_pos; lia|apply Z.lt_succ_r, Z.div_lt_upper_bound; lia]|].
  destruct (digit_spec (v / 100 mod 10)) as [-> ->];
    [pose proof (Z.mod_pos_bound (v / 100) 10); lia|].
  destruct (digit_spec (v / 10 mod 10)) as [-> ->];
    [pose proof (Z.mod_pos_bound (v / 10) 10); lia|].
  destruct (digit_spec (v mod 10)) as [-> ->];
    [pose proof (Z.mod_pos_bound v 10); lia|].
  replace ((((0 * 10 + v / 1000) * 10 + v / 100 mod 10) * 10 + v / 10 mod 10)
           * 10 + v mod 10) with v.
  - destruct (v <? lo) eqn:H1; [lia|]. destruct (hi <? v) eqn:H2; [lia|].
    reflexivity.
  - Z.div_mod_to_equations. lia.
Qed.

(** ** RFC 3339: what [appendStrictRFC3339] writes, [parseRFC3339] reads *)

Lemma daysIn_le month year : daysIn month year <= 31.
Proof.
  unfold daysIn. destruct (month =? 2); [destruct (isLeap year); lia|].
  destruct (_ || _); lia.
Qed.

Lemma parseRFC3339_fields year month day hour min sec rest :
  0 <= year <= 9999 -> 1 <= month <= 12 -> 1 <= day <= daysIn month year ->
  0 <= hour <= 23 -> 0 <= min <= 59 -> 0 <= sec <= 59 ->
  parseRFC3339 (pad4 year ++ "-"%char :: pad2 month ++ "-"%char :: pad2 day
                ++ "T"%char :: pad2 hour ++ ":"%char :: pad2 min
                ++ ":"%char :: pad2 sec ++ rest)
  = let '(nsec, rest') :=
      match rest with
      | p :: d :: rest' =>
          if Ascii.eqb p "." && isDigit d
          then let '(ds, rest'') := span isDigit (d :: rest') in
               (parseNanoseconds ds, rest'')
          else (0, rest)
      | _ => (0, rest)
      end in
    match parseZone rest' with
    | Some zoneOffset =>
        Some (Date year month day hour min sec nsec - zoneOffset * 1000000000)
    | None => None
    end.
Proof.
  intros Hy Hm Hd Hh Hi Hs. pose proof (daysIn_le month year) as Hle.
  unfold parseRFC3339, pad4, pad2. cbn [app].
  rewrite parseUint_4 by lia.
  rewrite (parseUint_2 month) by lia.
  rewrite (parseUint_2 day) by lia.
  rewrite (parseUint_2 hour) by lia.
  rewrite (parseUint_2 min) by lia.
  rewrite (parseUint_2 sec) by lia.
  reflexivity.
Qed.

Lemma trimZeros_spec l : exists k, l = repeat "0"%char k ++ trimZeros l.
Proof.
  induction l as [|c l [k IH]]; [exists 0%nat; reflexivity|].
  cbn [trimZeros]. destruct (Ascii.eqb c "0") eqn:E.
  - apply Ascii.eqb_eq in E as ->. exists (S k). cbn [repeat app]. now f_equal.
  - exists 0%nat. reflexivity.
Qed.

Lemma atoi_zeros k : forall acc,
  atoi acc (repeat "0"%char k) = Some (acc * 10 ^ Z.of_nat k).
Proof.
  induction k as [|k IH]; intros acc.
  - cbn. f_equal. lia.
  - cbn [repeat atoi]. change (isDigit "0") with true. cbv iota.
    rewrite IH. f_equal. rewrite Nat2Z.inj_succ, Z.pow_succ_r by lia.
    change (Z.of_N (N_of_ascii "0") - 48) with 0. lia.
Qed.

Lemma span_app (p : ascii -> bool) l c rest :
  Forall (fun x => p x = true) l -> p c = false ->
  span p (l ++ c :: rest) = (l, c :: rest).
Proof.
  intros Hl Hc. induction Hl as [|x l Hx Hl IH]; cbn [span app].
  - now rewrite Hc.
  - now rewrite Hx, IH.
Qed.

Lemma appendNano_spec nsec :
  0 < nsec < 1000000000 ->
  exists d ds,
    appendNano nsec = "."%char :: d :: ds
    /\ Forall (fun c => isDigit c = true) (d :: ds)
    /\ parseNanoseconds (d :: ds) = nsec.
Proof.
  intros H. unfold appendNano. destruct (nsec =? 0) eqn:E; [lia|].
  destruct (trimZeros_spec (List.rev (digits 9 nsec))) as [k Hk].
  set (R := trimZeros (List.rev (digits 9 nsec))) in *.
  assert (HD : digits 9 nsec = List.rev R ++ repeat "0"%char k).
  { rewrite <- (rev_involutive (digits 9 nsec)), Hk, rev_app_distr, rev_repeat.
    reflexivity. }
  pose proof (Forall_isDigit_digits 9 nsec) as Hall. rewrite HD in Hall.
  apply Forall_app in Hall as [Hall _].
  pose proof (atoi_digits 9 0 nsec) as Hat. rewrite HD, atoi_app in Hat.
  pose proof (length_digits 9 nsec) as Hlen. rewrite HD, length_app, repeat_length in Hlen.
  destruct (atoi 0 (List.rev R)) as [x|] eqn:Hx; [|discriminate].
  rewrite atoi_zeros in Hat. injection Hat as Hat.
  rewrite Z.mod_small in Hat by lia.
  destruct (List.rev R) as [|d ds] eqn:HR.
  - cbn in Hx. injection Hx as <-. lia.
  - exists d, ds. split; [reflexivity|]. split; [assumption|].
    unfold parseNanoseconds. rewrite firstn_all2 by lia. rewrite Hx.
    replace (9 - Z.of_nat (length (d :: ds))) with (Z.of_nat k) by lia. lia.
Qed.

Lemma appendZone_head offset :
  exists c z, appendZone offset = c :: z
              /\ isDigit c = false /\ Ascii.eqb c "." = false.
Proof.
  unfold appendZone. destruct (offset =? 0).
  - eexists _, _. repeat split; reflexivity.
  - destruct (_ <? 0); eexists _, _; repeat split; reflexivity.
Qed.

Lemma parseZone_appendZone offset :
  offset mod 60 = 0 ->
  (offset =? 0) || (Z.abs (Z.quot offset 60) / 60 <? 24) = true ->
  parseZone (appendZone offset) = Some offset.
Proof.
  intros Hm Hr. unfold appendZone. destruct (offset =? 0) eqn:E.
  - apply Z.eqb_eq in E as ->. reflexivity.
  - cbn [orb] in Hr. apply Z.ltb_lt in Hr.
    assert (Hq : Z.quot offset 60 = offset / 60).
    { apply Z.quot_div_exact; [lia|]. apply Z.mod_divide; [lia|exact Hm]. }
    rewrite Hq in *. set (q := offset / 60) in *.
    assert (Ho : offset = 60 * q) by (unfold q; Z.div_mod_to_equations; lia).
    unfold pad2. cbn [app parseZone].
    rewrite (parseUint_2 (Z.abs q / 60)) by (Z.div_mod_to_equations; lia).
    rewrite (parseUint_2 (Z.abs q mod 60)) by (Z.div_mod_to_equations; lia).
    change (Ascii.eqb ":" ":") with true. cbv iota.
    destruct (q <? 0) eqn:Hs.
    + change (Ascii.eqb "-" "-") with true. cbv iota. f_equal.
      Z.div_mod_to_equations. lia.
    + change (Ascii.eqb "+" "-") with false. change (Ascii.eqb "+" "+") with true.
      cbv iota. f_equal. Z.div_mod_to_equations. lia.
Qed.

Lemma isDigit_not_QUOTE c : isDigit c = true -> Ascii.eqb c QUOTE = false.
Proof.
  intros H. destruct (Ascii.eqb c QUOTE) eqn:E; [|reflexivity].
  apply Ascii.eqb_eq in E as ->. discriminate.
Qed.

Lemma pad2_not_QUOTE v :
  0 <= v < 100 -> Forall (fun c => Ascii.eqb c QUOTE = false) (pad2 v).
Proof.
  intros H. unfold pad2.
  repeat constructor; apply isDigit_not_QUOTE, digit_spec;
    Z.div_mod_to_equations; lia.
Qed.

Lemma pad4_not_QUOTE v :
  0 <= v <= 9999 -> Forall (fun c => Ascii.eqb c QUOTE = false) (pad4 v).
Proof.
  intros H. unfold pad4.
  repeat constructor; apply isDigit_not_QUOTE, digit_spec;
    Z.div_mod_to_equations; lia.
Qed.

Lemma Ok_inj {A : Type} (a b : A) : Ok a = Ok b -> a = b.
Proof. congruence. Qed.

(** The text written for an instant is read back as that instant, when
    the zone offset is a whole number of minutes; it holds no quote. *)
Lemma parseRFC3339_appendStrictRFC3339 offset t stamp :
  appendStrictRFC3339 offset t = Ok stamp ->
  offset mod 60 = 0 ->
  parseRFC3339 stamp = Some t
  /\ Forall (fun c => Ascii.eqb c QUOTE = false) stamp.
Proof.
  unfold appendStrictRFC3339. intros H Hm.
  destruct (date ((t / 1000000000 + offset) / 86400)) as [[year month] day] eqn:Hdate.
  apply date_daysOf in Hdate as (Hmonth & Hday & Hdays).
  destruct ((year <? 0) || (9999 <? year)) eqn:Hy; [discriminate|].
  destruct (negb (offset =? 0) && _) eqn:Hz; [discriminate|].
  apply Ok_inj in H. subst stamp.
  apply orb_false_elim in Hy as [Hy1 Hy2].
  assert (Hzone : (offset =? 0) || (Z.abs (Z.quot offset 60) / 60 <? 24) = true).
  { destruct (offset =? 0); [reflexivity|]. cbn [negb andb orb] in *.
    apply Z.leb_gt in Hz. now apply Z.ltb_lt. }
  set (abs := t / 1000000000 + offset) in *.
  set (nsec := t mod 1000000000).
  assert (Hns : 0 <= nsec < 1000000000) by (apply Z.mod_pos_bound; lia).
  assert (Hclock : 0 <= abs mod 86400 < 86400) by (apply Z.mod_pos_bound; lia).
  pose proof (daysIn_le month year) as Hle.
  destruct (appendZone_head offset) as (zc & zs & Hzc & Hzd & Hzp).
  split.
  - rewrite parseRFC3339_fields; try lia;
      try (Z.div_mod_to_equations; lia).
    assert (Hfrac :
      match appendNano nsec ++ appendZone offset with
      | p :: d :: rest' =>
          if Ascii.eqb p "." && isDigit d
          then let '(ds, rest'') := span isDigit (d :: rest') in
               (parseNanoseconds ds, rest'')
          else (0, appendNano nsec ++ appendZone offset)
      | _ => (0, appendNano nsec ++ appendZone offset)
      end = (nsec, appendZone offset)).
    { destruct (Z.eq_dec nsec 0) as [E|E].
      - rewrite E. cbn [appendNano Z.eqb app]. rewrite Hzc.
        destruct zs as [|z1 zs']; [reflexivity|]. now rewrite Hzp.
      - destruct (appendNano_spec nsec) as (d & ds & Ha & Hall & Hp); [lia|].
        rewrite Ha. cbn [app]. change (Ascii.eqb "." ".") with true.
        rewrite (Forall_inv Hall). cbn [andb].
        change (d :: ds ++ appendZone offset) with ((d :: ds) ++ appendZone offset).
        rewrite Hzc, (span_app isDigit (d :: ds) zc zs Hall Hzd), Hp.
        reflexivity. }
    rewrite Hfrac. rewrite parseZone_appendZone by assumption.
    f_equal. unfold Date. rewrite Hdays.
    unfold nsec, abs. Z.div_mod_to_equations. lia.
  - apply Forall_app. split; [apply pad4_not_QUOTE; lia|].
    constructor; [reflexivity|].
    apply Forall_app. split; [apply pad2_not_QUOTE; lia|].
    constructor; [reflexivity|].
    apply Forall_app. split; [apply pad2_not_QUOTE; lia|].
    constructor; [reflexivity|].
    apply Forall_app. split; [apply pad2_not_QUOTE; Z.div_mod_to_equations; lia|].
    constructor; [reflexivity|].
    apply Forall_app. split; [apply pad2_not_QUOTE; Z.div_mod_to_equations; lia|].
    constructor; [reflexivity|].
    apply Forall_app. split; [apply pad2_not_QUOTE; Z.div_mod_to_equations; lia|].
    apply Forall_app. split.
    + destruct (Z.eq_dec nsec 0) as [E|E].
      * rewrite E. constructor.
      * destruct (appendNano_spec nsec) as (d & ds & Ha & Hall & Hp); [lia|].
        rewrite Ha. constructor; [reflexivity|].
        eapply Forall_impl; [exact Hall|]. intros c. apply isDigit_not_QUOTE.
    + unfold appendZone. destruct (offset =? 0) eqn:E0.
      * repeat constructor.
      * cbn [orb] in Hzone. apply Z.ltb_lt in Hzone.
        constructor; [destruct (Z.quot offset 60 <? 0); reflexivity|].
        apply Forall_app. split;
          [apply pad2_not_QUOTE; Z.div_mod_to_equations; lia|].
        constructor; [reflexivity|].
        apply pad2_not_QUOTE; Z.div_mod_to_equations; lia.
Qed.

(** ** String literals: what [appendString] writes, [readString] reads *)

Local Close Scope Z_scope.

Lemma runeLen_inv b0 t :
  match runeLen (b0 :: t) with
  | 0 => (N_of_ascii b0 <? 128)%N = false
  | 1 => (N_of_ascii b0 <? 128)%N = true
  | 2 => (N_of_ascii b0 <? 128)%N = false
         /\ exists b1 t', t = b1 :: t'
                          /\ forall X, runeLen (b0 :: b1 :: X) = 2
  | 3 => (N_of_ascii b0 <? 128)%N = false
         /\ exists b1 b2 t', t = b1 :: b2 :: t'
                             /\ forall X, runeLen (b0 :: b1 :: b2 :: X) = 3
  | 4 => (N_of_ascii b0 <? 128)%N = false
         /\ exists b1 b2 b3 t', t = b1 :: b2 :: b3 :: t'
              /\ forall X, runeLen (b0 :: b1 :: b2 :: b3 :: X) = 4
  | _ => False
  end.
Proof.
  unfold runeLen.
  destruct (N_of_ascii b0 <? 128)%N; [reflexivity|].
  destruct (between 194 223 b0).
  { destruct t as [|b1 t']; [reflexivity|]. cbv iota.
    destruct (isCont b1) eqn:Hc; [|reflexivity].
    split; [reflexivity|]. exists b1, t'. split; [reflexivity|].
    intros X. cbv iota. now rewrite Hc. }
  destruct (between 224 239 b0).
  { destruct t as [|b1 [|b2 t']]; [reflexivity..|]. cbv iota.
    destruct (second3 b0 b1 && isCont b2) eqn:Hc; [|reflexivity].
    split; [reflexivity|]. exists b1, b2, t'. split; [reflexivity|].
    intros X. cbv iota. now rewrite Hc. }
  destruct (between 240 244 b0); [|reflexivity].
  destruct t as [|b1 [|b2 [|b3 t']]]; [reflexivity..|]. cbv iota.
  destruct (second4 b0 b1 && isCont b2 && isCont b3) eqn:Hc; [|reflexivity].
  split; [reflexivity|]. exists b1, b2, b3, t'. split; [reflexivity|].
  intros X. cbv iota. now rewrite Hc.
Qed.

Lemma readString_escapeASCII c X :
  (N_of_ascii c <? 128)%N = true ->
  readString (escapeASCII c ++ X) = push [c] (readString X).
Proof.
  destruct c as [[] [] [] [] [] [] [] []]; intros H;
    try discriminate H; reflexivity.
Qed.

Lemma readString_replacement X :
  readString (BACKSLASH :: bytes "ufffd" ++ X) = push runeError (readString X).
Proof. reflexivity. Qed.

Lemma N_of_ascii_inj a n : N_of_ascii a = n -> a = ascii_of_N n.
Proof. intros <-. symmetry. apply ascii_N_embedding. Qed.

Lemma readString_lineSeparator b0 b1 b2 X :
  lineSeparator b0 b1 b2 = true ->
  readString (BACKSLASH :: bytes "u202" ++ hex (N_of_ascii b2 mod 16) :: X)
  = push [b0; b1; b2] (readString X).
Proof.
  unfold lineSeparator, between. intros H.
  apply andb_prop in H as [H H2]. apply andb_prop in H as [H0 H1].
  apply N.eqb_eq, N_of_ascii_inj in H0. apply N.eqb_eq, N_of_ascii_inj in H1.
  apply andb_prop in H2 as [Hlo Hhi].
  apply N.leb_le in Hlo. apply N.leb_le in Hhi.
  assert (Hb2 : N_of_ascii b2 = 168%N \/ N_of_ascii b2 = 169%N) by lia.
  subst b0 b1.
  destruct Hb2 as [Hb2|Hb2]; rewrite Hb2; apply N_of_ascii_inj in Hb2;
    subst b2; reflexivity.
Qed.

Lemma push_Some p s rest : push p (Some (s, rest)) = Some (p ++ s, rest).
Proof. reflexivity. Qed.

Lemma readString_escape n : forall l rest,
  length l <= n ->
  readString (escape l ++ QUOTE :: rest) = Some (coerce l, rest).
Proof.
  induction n as [|n IH]; intros l rest Hlen.
  - destruct l; [reflexivity|cbn in Hlen; lia].
  - destruct l as [|b0 t]; [reflexivity|].
    cbn [length] in Hlen.
    pose proof (runeLen_inv b0 t) as Hinv.
    destruct (runeLen (b0 :: t)) as [|[|[|[|[|k]]]]] eqn:E.
    + cbn [escape coerce]. rewrite E. cbn [app].
      rewrite <- app_assoc, readString_replacement, IH by lia. reflexivity.
    + cbn [escape coerce]. rewrite E.
      rewrite <- app_assoc, readString_escapeASCII, IH by (assumption || lia).
      reflexivity.
    + destruct Hinv as (Hhi & b1 & t' & -> & Hirr).
      cbn [escape coerce]. rewrite E. cbn [app readString].
      rewrite Hhi, Hirr. cbn [length] in Hlen. rewrite IH by lia. reflexivity.
    + destruct Hinv as (Hhi & b1 & b2 & t' & -> & Hirr).
      cbn [length] in Hlen.
      cbn [escape coerce]. rewrite E.
      destruct (lineSeparator b0 b1 b2) eqn:Hls.
      * cbn [app]. rewrite <- app_assoc. cbn [app].
        rewrite (readString_lineSeparator b0 b1 b2 _ Hls), IH by lia.
        reflexivity.
      * cbn [app readString]. rewrite Hhi, Hirr, IH by lia. reflexivity.
    + destruct Hinv as (Hhi & b1 & b2 & b3 & t' & -> & Hirr).
      cbn [length] in Hlen.
      cbn [escape coerce]. rewrite E. cbn [app readString].
      rewrite Hhi, Hirr, IH by lia. reflexivity.
    + destruct Hinv.
Qed.

Lemma coerce_Valid n : forall l,
  length l <= n -> Valid l = true -> coerce l = l.
Proof.
  induction n as [|n IH]; intros l Hlen Hv.
  - destruct l; [reflexivity|cbn in Hlen; lia].
  - destruct l as [|b0 t]; [reflexivity|].
    cbn [length] in Hlen.
    pose proof (runeLen_inv b0 t) as Hinv.
    revert Hv. cbn [Valid coerce].
    destruct (runeLen (b0 :: t)) as [|[|[|[|[|k]]]]] eqn:E.
    + discriminate.
    + intros Hv. rewrite IH by (assumption || lia). reflexivity.
    + destruct Hinv as (Hhi & b1 & t' & -> & Hirr). cbn [length] in Hlen.
      intros Hv. rewrite IH by (assumption || lia). reflexivity.
    + destruct Hinv as (Hhi & b1 & b2 & t' & -> & Hirr). cbn [length] in Hlen.
      intros Hv. rewrite IH by (assumption || lia). reflexivity.
    + destruct Hinv as (Hhi & b1 & b2 & b3 & t' & -> & Hirr).
      cbn [length] in Hlen.
      intros Hv. rewrite IH by (assumption || lia). reflexivity.
    + destruct Hinv.
Qed.

Lemma stringValue_appendString s rest :
  stringValue (appendString s ++ rest) = Some (str (coerce (bytes s)), rest).
Proof.
  unfold appendString, stringValue. cbn [app].
  change (Ascii.eqb QUOTE QUOTE) with true. cbv iota.
  rewrite <- app_assoc. cbn [app].
  rewrite (readString_escape (length (bytes s))) by lia. reflexivity.
Qed.

(** ** Numbers and the layout of the document *)

Lemma isIntChar_digits u :
  Forall (fun c => isIntChar c = true) (bytes (NilEmpty.string_of_uint u)).
Proof.
  unfold bytes.
  induction u as [|u IH|u IH|u IH|u IH|u IH|u IH|u IH|u IH|u IH|u IH];
    cbn [NilEmpty.string_of_uint list_ascii_of_string]; constructor;
    (reflexivity || exact IH).
Qed.

Lemma isIntChar_uint u :
  Forall (fun c => isIntChar c = true) (bytes (NilZero.string_of_uint u)).
Proof.
  destruct u; try apply isIntChar_digits. repeat constructor.
Qed.

Lemma isIntChar_appendInt z : Forall (fun c => isIntChar c = true) (appendInt z).
Proof.
  unfold appendInt. destruct (Z.to_int z) as [u|u]; cbn [NilZero.string_of_int].
  - apply isIntChar_uint.
  - constructor; [reflexivity|apply isIntChar_uint].
Qed.

Lemma bytes_eqb_refl l : bytes_eqb l l = true.
Proof.
  induction l as [|c l IH]; cbn [bytes_eqb]; [reflexivity|].
  now rewrite Ascii.eqb_refl, IH.
Qed.

Lemma readInt_appendInt z : readInt (appendInt z) = Some z.
Proof.
  unfold readInt. unfold appendInt at 1. rewrite str_bytes.
  rewrite NilZero.isi.
  - rewrite DecimalZ.of_to, bytes_eqb_refl. reflexivity.
  - destruct z as [|p|p]; cbn; try discriminate.
    intros H. injection H as H. now apply DecimalPos.Unsigned.to_uint_nonnil in H.
  - destruct z as [|p|p]; cbn; try discriminate.
    intros H. injection H as H. now apply DecimalPos.Unsigned.to_uint_nonnil in H.
Qed.

Lemma expect_app p rest : expect p (p ++ rest) = Some rest.
Proof.
  unfold expect.
  rewrite firstn_app, Nat.sub_diag, firstn_all, firstn_O, app_nil_r.
  rewrite bytes_eqb_refl, skipn_app, skipn_all, Nat.sub_diag. reflexivity.
Qed.

Lemma member_key {A : Type} first name rest
      (read : list ascii -> option (A * list ascii)) :
  member first name (key first name ++ rest) read = read rest.
Proof. unfold member. now rewrite expect_app. Qed.

Lemma intValue_appendInt z name rest :
  intValue (appendInt z ++ key false name ++ rest)
  = Some (z, key false name ++ rest).
Proof.
  unfold intValue, key. cbn [bytes list_ascii_of_string app].
  rewrite (span_app isIntChar);
    [|apply isIntChar_appendInt|reflexivity].
  now rewrite readInt_appendInt.
Qed.

Lemma timeValue_stamp stamp t rest :
  parseRFC3339 stamp = Some t ->
  Forall (fun c => Ascii.eqb c QUOTE = false) stamp ->
  timeValue (QUOTE :: stamp ++ QUOTE :: rest) = Some (t, rest).
Proof.
  intros Hp Hq. unfold timeValue.
  change (Ascii.eqb QUOTE QUOTE) with true. cbv iota.
  rewrite (span_app (fun c => negb (Ascii.eqb c QUOTE))).
  - now rewrite Hp.
  - eapply Forall_impl; [exact Hq|]. intros c Hc. cbv beta. now rewrite Hc.
  - reflexivity.
Qed.

(** The record that reading back gives: the strings made well-formed. *)
Lemma unmarshal_marshalIndent offset other t data :
  marshalIndent offset t = Ok data ->
  (offset mod 60 = 0)%Z ->
  int64 (ExpiresIn t) = true ->
  unmarshal other data
  = Ok {| AccessToken := str (coerce (bytes (AccessToken t)));
          TokenType := str (coerce (bytes (TokenType t)));
          ExpiresIn := ExpiresIn t;
          RefreshToken := str (coerce (bytes (RefreshToken t)));
          Scope := str (coerce (bytes (Scope t)));
          CachedAt := CachedAt t |}.
Proof.
  unfold marshalIndent. intros Hm Hz Hi.
  destruct (appendStrictRFC3339 offset (CachedAt t)) as [stamp|e] eqn:Hs;
    [|discriminate].
  apply Ok_inj in Hm. subst data.
  destruct (parseRFC3339_appendStrictRFC3339 _ _ _ Hs Hz) as [Hp Hq].
  unfold unmarshal. rewrite bytes_str. unfold readDocument.
  rewrite member_key, stringValue_appendString.
  rewrite member_key, stringValue_appendString.
  rewrite member_key, intValue_appendInt.
  rewrite member_key, stringValue_appendString.
  rewrite member_key, stringValue_appendString.
  rewrite member_key, (timeValue_stamp stamp (CachedAt t) _ Hp Hq).
  rewrite bytes_eqb_refl. cbn [ExpiresIn]. now rewrite Hi.
Qed.

Lemma coerce_id s : Valid (bytes s) = true -> str (coerce (bytes s)) = s.
Proof.
  intros H. rewrite (coerce_Valid (length (bytes s))) by (assumption || lia).
  apply str_bytes.
Qed.

(** ** Save, then load, with Go's codec *)

Lemma IsExpired_ext (a b : TokenResponse) (now : Time) :
  CachedAt a = CachedAt b -> ExpiresIn a = ExpiresIn b ->
  IsExpired a now = IsExpired b now.
Proof. unfold IsExpired. now intros -> ->. Qed.

(** Examples of the codec: a time stamp with and without a fraction of a
    second, a string with a byte that is not UTF-8 and a [<], and the
    instant read from a stamp with more than nine decimals. *)
Lemma gojson_examples :
  appendStrictRFC3339 32400%Z savedAt = Ok (bytes "2025-11-29T17:00:00+09:00")
  /\ appendStrictRFC3339 0%Z (savedAt + 120500000)%Z
     = Ok (bytes "2025-11-29T08:00:00.1205Z")
  /\ appendString (String "255" "a<b")
     = QUOTE :: BACKSLASH :: bytes "ufffda" ++ BACKSLASH :: bytes "u003cb"
       ++ [QUOTE]
  /\ parseRFC3339 (bytes "2025-11-29T17:00:00.12050000009+09:00")
     = Some (savedAt + 120500000)%Z.
Proof. repeat split; vm_compute; reflexivity. Qed.




(* ===================================================================== *)
(** * PKCE generation                                                     *)
(* ===================================================================== *)

(** Without padding, [n] bytes encode to [ceil (4 n / 3)] characters. *)
Lemma length_b64encode_raw alphabet n :
  forall src, (length src <= n)%nat ->
    length (b64encode alphabet [] src) = ((4 * length src + 2) / 3)%nat.
Proof.
  induction n as [n H] using lt_wf_ind. intros src Hlen.
  destruct src as [|a [|b [|c rest]]]; try reflexivity.
  cbn [b64encode length].
  rewrite (H (length rest)) by (cbn in Hlen; lia).
  replace (4 * S (S (S (length rest))) + 2)%nat
    with (4 * 3 + (4 * length rest + 2))%nat by lia.
  rewrite (Nat.div_add_l 4 3) by lia. lia.
Qed.

Lemma b64char_In alphabet v :
  length alphabet = 64%nat -> In (b64char alphabet v) alphabet.
Proof.
  intros Hl. unfold b64char. apply nth_In. rewrite Hl.
  change 63%N with (N.ones 6). rewrite N.land_ones.
  pose proof (N.mod_upper_bound v (2 ^ 6) ltac:(discriminate)) as Hb.
  change (2 ^ 6)%N with 64%N in *. lia.
Qed.

(** Without padding, every character of an encoding is in the alphabet. *)
Lemma b64encode_raw_alphabet alphabet n :
  length alphabet = 64%nat ->
  forall src, (length src <= n)%nat ->
    Forall (fun c => In c alphabet) (b64encode alphabet [] src).
Proof.
  intros Hl. induction n as [n H] using lt_wf_ind. intros src Hlen.
  destruct src as [|a [|b [|c rest]]]; cbn [b64encode app];
    repeat (constructor; [now apply b64char_In|]);
    try (constructor; fail).
  apply (H (length rest)); cbn in Hlen; lia.
Qed.

Lemma length_bigEndian n x : length (sha256.bigEndian n x) = n.
Proof.
  revert x. induction n as [|n IH]; intros x; [reflexivity|].
  cbn [sha256.bigEndian]. rewrite length_app, IH. cbn. lia.
Qed.

Lemma length_Sum256 msg : length (sha256.Sum256 msg) = 32%nat.
Proof.
  unfold sha256.Sum256. rewrite !length_app, !length_bigEndian. reflexivity.
Qed.

Lemma length_rand_Read32 source : length (rand_Read32 source) = 32%nat.
Proof.
  unfold rand_Read32. rewrite length_firstn, length_app, repeat_length. lia.
Qed.

Lemma rand_Read32_enough source :
  (32 <= length source)%nat -> rand_Read32 source = firstn 32 source.
Proof.
  intros H. unfold rand_Read32. rewrite firstn_app.
  replace (32 - length source)%nat with 0%nat by lia.
  cbn [firstn]. apply app_nil_r.
Qed.

Example generatePKCE_rfc7636 :
  let a := generatePKCE someAuthenticator rfc7636Octets in
  codeVerifier a = "dBjftJeZ4CVP-mB92K27uhbUJU1p1r_wW1gFWFOEjXk"
  /\ codeChallenge a = "E9Melhoa2OwvFrEMTJguCHaoeK1t8URWbuGJSstw-cM".
Proof. vm_compute. split; reflexivity. Qed.

(** C7: the verifier that [generatePKCE] stores is the unpadded URL-safe
    base64 encoding of the 32 bytes read from the random source, and the
    challenge is the unpadded URL-safe base64 encoding of the SHA-256 digest
    of the verifier string.  Both are 43 characters of the URL-safe
    alphabet (so no [=] padding occurs), and the challenge is a function of
    the verifier: two generations with the same verifier give the same
    challenge. *)
Theorem generatePKCE_spec (a : Authenticator) (source : list ascii) :
  let a' := generatePKCE a source in
  (exists b, length b = 32%nat
             /\ ((32 <= length source)%nat -> b = firstn 32 source)
             /\ codeVerifier a' = RawURLEncoding_EncodeToString b)
  /\ codeChallenge a'
     = RawURLEncoding_EncodeToString (sha256.Sum256 (bytes (codeVerifier a')))
  /\ String.length (codeVerifier a') = 43%nat
  /\ String.length (codeChallenge a') = 43%nat
  /\ Forall (fun c => In c encodeURL) (bytes (codeVerifier a'))
  /\ Forall (fun c => In c encodeURL) (bytes (codeChallenge a'))
  /\ ~ In EQ (bytes (codeVerifier a')) /\ ~ In EQ (bytes (codeChallenge a'))
  /\ (forall a2 source2,
        codeVerifier (generatePKCE a2 source2) = codeVerifier a' ->
        codeChallenge (generatePKCE a2 source2) = codeChallenge a').
Proof.
  intros a'. subst a'. cbn [generatePKCE codeVerifier codeChallenge].
  unfold challengeOf, RawURLEncoding_EncodeToString.
  assert (Hv : Forall (fun c => In c encodeURL)
                 (b64encode encodeURL [] (rand_Read32 source)))
    by (eapply b64encode_raw_alphabet; [reflexivity|apply Nat.le_refl]).
  assert (Hc : forall m, Forall (fun c => In c encodeURL)
                 (b64encode encodeURL [] (sha256.Sum256 m)))
    by (intros m; eapply b64encode_raw_alphabet; [reflexivity|apply Nat.le_refl]).
  assert (Hneq : ~ In EQ encodeURL) by (vm_compute; intuition discriminate).
  assert (Hno : forall l, Forall (fun c => In c encodeURL) l -> ~ In EQ l).
  { intros l Hl Hin. rewrite Forall_forall in Hl. rewrite <- list_elem_of_In in Hin.
    apply Hneq, Hl, Hin. }
  split; [|split; [|split; [|split; [|split; [|split; [|split; [|split]]]]]]].
  - exists (rand_Read32 source). split; [apply length_rand_Read32|].
    split; [apply rand_Read32_enough|reflexivity].
  - reflexivity.
  - rewrite length_str, (length_b64encode_raw _ _ _ (Nat.le_refl _)).
    now rewrite length_rand_Read32.
  - rewrite length_str, (length_b64encode_raw _ _ _ (Nat.le_refl _)).
    now rewrite length_Sum256.
  - rewrite bytes_str. exact Hv.
  - rewrite bytes_str. apply Hc.
  - rewrite bytes_str. apply Hno, Hv.
  - rewrite bytes_str. apply Hno, Hc.
  - intros a2 source2 Heq. cbn [generatePKCE codeVerifier codeChallenge] in *.
    unfold challengeOf, RawURLEncoding_EncodeToString in *. now rewrite Heq.
Qed.

Lemma generatePKCE_spec_witness :
  let a := generatePKCE someAuthenticator rfc7636Octets in
  codeVerifier a = RawURLEncoding_EncodeToString rfc7636Octets
  /\ String.length (codeChallenge a) = 43%nat.
Proof.
  intros a.
  destruct (generatePKCE_spec someAuthenticator rfc7636Octets)
    as ((b & _ & Hb & Hv) & _ & _ & Hl & _).
  split; [|exact Hl].
  fold a in Hv. rewrite Hv, (Hb ltac:(vm_compute; lia)). reflexivity.
Defined.

(* ===================================================================== *)
(** * Further properties: quoted-printable                                *)
(* ===================================================================== *)

Lemma TrimRight_none l cutset :
  (forall c, In c l -> existsb (Ascii.eqb c) cutset = false) ->
  TrimRight l cutset = l.
Proof.
  induction l as [|x l IH]; intros H; [reflexivity|].
  cbn [TrimRight]. rewrite IH by (intros c Hc; apply H; now right).
  destruct l; [|reflexivity]. rewrite (H x) by now left. reflexivity.
Qed.

Lemma decodeLine_noEQ l :
  (forall c, In c l -> Ascii.eqb c EQ = false) -> decodeLine l = l.
Proof.
  induction l as [|x l IH]; intros H; [reflexivity|].
  rewrite decodeLine_other by (apply H; now left).
  rewrite IH by (intros c Hc; apply H; now right). reflexivity.
Qed.

Lemma splitLines_join b :
  concat (map (fun l => l ++ [LF]) (splitLines b)) = b ++ [LF].
Proof.
  induction b as [|c b IH]; [reflexivity|].
  cbn [splitLines]. destruct (Ascii.eqb c LF) eqn:Hc.
  - apply Ascii.eqb_eq in Hc. subst c. cbn [map concat app]. now rewrite IH.
  - destruct (splitLines b) as [|l ls]; cbn [map concat app] in *.
    + destruct b; discriminate.
    + now rewrite <- IH.
Qed.

Lemma splitLines_chars b :
  Forall (fun l => forall c, In c l -> In c b /\ Ascii.eqb c LF = false)
         (splitLines b).
Proof.
  induction b as [|x b IH]; cbn [splitLines].
  - constructor; [intros c []|constructor].
  - destruct (Ascii.eqb x LF) eqn:Hx.
    + constructor; [intros c []|].
      eapply Forall_impl; [exact IH|]. cbn. intros l Hl c Hc.
      destruct (Hl c Hc). split; [now right|assumption].
    + destruct (splitLines b) as [|l ls].
      * constructor; [|constructor]. intros c [<-|[]]. split; [now left|assumption].
      * inversion IH as [|? ? Hl Hls]; subst. constructor.
        -- intros c [<-|Hc]; [split; [now left|assumption]|].
           destruct (Hl c Hc). split; [now right|assumption].
        -- eapply Forall_impl; [exact Hls|]. cbn. intros l' Hl' c Hc.
           destruct (Hl' c Hc). split; [now right|assumption].
Qed.

Lemma softBreak_last_not_EQ l :
  (forall c, In c l -> Ascii.eqb c EQ = false) -> softBreak l = None.
Proof.
  intros H. unfold softBreak. destruct (rev l) as [|c r] eqn:Hr; [reflexivity|].
  rewrite (H c); [reflexivity|]. apply in_rev. rewrite Hr. now left.
Qed.

(** One round on a line without [=], CR or LF copies it and adds a newline. *)
Lemma codeLine_plain l :
  (forall c, In c l ->
     Ascii.eqb c EQ = false /\ Ascii.eqb c CR = false /\ Ascii.eqb c LF = false) ->
  decodeLine (prepareLine l) = l ++ [LF].
Proof.
  intros H. unfold prepareLine.
  rewrite TrimRight_none.
  - pose proof (suffix_EQ_softBreak l) as Hs.
    rewrite softBreak_last_not_EQ in Hs by (intros c Hc; apply (H c Hc)).
    rewrite Hs. apply decodeLine_noEQ. intros c Hc.
    apply in_app_or in Hc as [Hc|[<-|[]]]; [apply (H c Hc)|reflexivity].
  - intros c Hc. destruct (H c Hc) as (_ & Hcr & Hlf).
    cbn [existsb]. now rewrite Hcr, Hlf.
Qed.

(** X1: text without [=] and without carriage returns is not returned as it
    is: it comes back with one newline added at the end (so the empty input
    decodes to a single newline). *)
Theorem decodeQuotedPrintable_plain_text (s : string) :
  forallb (fun c => negb (Ascii.eqb c EQ || Ascii.eqb c CR)) (bytes s) = true ->
  decodeQuotedPrintable s = s +:+ String LF "".
Proof.
  intros Hs. rewrite decodeQuotedPrintable_lines.
  rewrite forallb_forall in Hs.
  assert (Hmap : map (fun l => decodeLine (prepareLine l)) (splitLines (bytes s))
                 = map (fun l => l ++ [LF]) (splitLines (bytes s))).
  { apply map_ext_in. intros l Hl. apply codeLine_plain. intros c Hc.
    pose proof (splitLines_chars (bytes s)) as Hall.
    rewrite Forall_forall in Hall.
    rewrite <- list_elem_of_In in Hl.
    destruct (Hall l Hl c Hc) as [Hin Hlf].
    specialize (Hs c Hin). apply negb_true_iff, orb_false_iff in Hs.
    tauto. }
  rewrite Hmap, splitLines_join, str_app, str_bytes. reflexivity.
Qed.

Lemma decodeQuotedPrintable_plain_text_witness :
  decodeQuotedPrintable "" = String LF ""
  /\ decodeQuotedPrintable "Hello, world" = "Hello, world" +:+ String LF "".
Proof.
  split.
  - apply (decodeQuotedPrintable_plain_text ""). reflexivity.
  - apply (decodeQuotedPrintable_plain_text "Hello, world"). reflexivity.
Defined.

Lemma length_decodeLine n :
  forall l, (length l <= n)%nat -> (length (decodeLine l) <= length l)%nat.
Proof.
  induction n as [n IH] using lt_wf_ind. intros l Hn.
  destruct l as [|c rest]; [cbn; lia|].
  destruct (Ascii.eqb c EQ) eqn:Hc.
  - destruct rest as [|c1 [|c2 rest']]; [cbn; lia|cbn; lia|].
    cbn [decodeLine]. rewrite Hc. cbn [length] in *.
    pose proof (IH (length rest') ltac:(lia) rest' ltac:(lia)). lia.
  - rewrite decodeLine_other by assumption. cbn [length] in *.
    pose proof (IH (length rest) ltac:(lia) rest ltac:(lia)). lia.
Qed.

Lemma length_TrimRight l cutset : (length (TrimRight l cutset) <= length l)%nat.
Proof.
  induction l as [|x l IH]; [cbn; lia|]. cbn [TrimRight].
  destruct (TrimRight l cutset).
  - destruct (existsb (Ascii.eqb x) cutset); cbn in *; lia.
  - cbn [length] in *. lia.
Qed.

Lemma length_prepareLine l : (length (prepareLine l) <= length l + 1)%nat.
Proof.
  unfold prepareLine. pose proof (length_TrimRight l [CR; LF]) as Ht.
  destruct (HasSuffix (TrimRight l [CR; LF]) [EQ]) eqn:Hs.
  - unfold TrimSuffix. rewrite Hs, length_firstn. lia.
  - rewrite length_app. cbn. lia.
Qed.

Lemma length_concat_map {A} (f g : list A -> list A) (ls : list (list A)) :
  (forall l, length (f l) <= length (g l))%nat ->
  (length (concat (map f ls)) <= length (concat (map g ls)))%nat.
Proof.
  intros H. induction ls as [|l ls IH]; [cbn; lia|].
  cbn [map concat]. rewrite !length_app. specialize (H l). lia.
Qed.

(** X2: decoding never lengthens the input by more than the one newline
    added after the last line. *)
Theorem decodeQuotedPrintable_length (s : string) :
  (String.length (decodeQuotedPrintable s) <= String.length s + 1)%nat.
Proof.
  rewrite decodeQuotedPrintable_lines, length_str.
  etransitivity.
  - apply (length_concat_map _ (fun l => l ++ [LF])). intros l.
    pose proof (length_decodeLine _ _ (Nat.le_refl (length (prepareLine l)))).
    pose proof (length_prepareLine l). rewrite length_app. cbn. lia.
  - rewrite splitLines_join, length_app, length_bytes. cbn. lia.
Qed.

(** X3: a line that ends in CR LF decodes like the same line ending in LF
    alone. *)
Theorem decodeQuotedPrintable_crlf (l rest : list ascii) :
  existsb (Ascii.eqb LF) l = false ->
  decodeQuotedPrintable (str (l ++ CR :: LF :: rest))
  = decodeQuotedPrintable (str (l ++ LF :: rest)).
Proof.
  intros Hl. rewrite !decodeQuotedPrintable_lines, !bytes_str.
  replace (l ++ CR :: LF :: rest) with ((l ++ [CR]) ++ LF :: rest)
    by now rewrite <- app_assoc.
  rewrite !splitLines_app_LF by (rewrite ?existsb_app, ?Hl; reflexivity).
  cbn [map concat]. do 2 f_equal.
  unfold prepareLine. now rewrite TrimRight_snoc_cut.
Qed.

Lemma decodeQuotedPrintable_crlf_witness :
  decodeQuotedPrintable (str (bytes "one" ++ CR :: LF :: bytes "two"))
  = decodeQuotedPrintable (str (bytes "one" ++ LF :: bytes "two")).
Proof. apply decodeQuotedPrintable_crlf. reflexivity. Defined.

(** After well-formed escapes the index loop is aligned again. *)
Lemma decodeLine_app n :
  forall l x, (length l <= n)%nat -> escapesOk l = true ->
    decodeLine (l ++ x) = unescape l ++ decodeLine x.
Proof.
  induction n as [n IH] using lt_wf_ind. intros l x Hn Hok.
  destruct l as [|c rest]; [reflexivity|].
  cbn [escapesOk] in Hok. destruct (Ascii.eqb c EQ) eqn:Hc.
  - destruct rest as [|c1 [|c2 rest']]; try discriminate.
    unfold isHex in Hok.
    destruct (hexval c1) as [h1|] eqn:H1; [|discriminate].
    destruct (hexval c2) as [h2|] eqn:H2; [|discriminate].
    cbn [andb] in Hok.
    change ((c :: c1 :: c2 :: rest') ++ x) with (c :: c1 :: c2 :: (rest' ++ x)).
    cbn [decodeLine unescape]. rewrite Hc, H1, H2.
    rewrite (IH (length rest')) by (cbn in Hn; auto; lia).
    now rewrite (Sscanf_02X_hex _ _ _ _ H1 H2).
  - change ((c :: rest) ++ x) with (c :: (rest ++ x)).
    rewrite decodeLine_other, unescape_other by assumption.
    rewrite (IH (length rest)) by (cbn in Hn; auto; lia). reflexivity.
Qed.

(** X4: when a line ends in [=] and a single hexadecimal digit, the
    newline that ends the line is taken for the second digit of the escape:
    the digit's value is emitted as one byte and the line is joined to the
    next one. *)
Theorem decodeQuotedPrintable_short_escape (l rest : list ascii) (h : ascii) (v : N) :
  existsb (Ascii.eqb LF) l = false ->
  escapesOk l = true ->
  hexval h = Some v ->
  decodeQuotedPrintable (str (l ++ EQ :: h :: LF :: rest))
  = str (unescape l ++ ascii_of_N v :: bytes (decodeQuotedPrintable (str rest))).
Proof.
  intros Hl Hok Hh. rewrite !decodeQuotedPrintable_lines, !bytes_str.
  assert (HhLF : Ascii.eqb LF h = false).
  { destruct (Ascii.eqb_spec LF h) as [<-|]; [discriminate|reflexivity]. }
  assert (HhCR : Ascii.eqb h CR = false).
  { destruct (Ascii.eqb_spec h CR) as [->|]; [discriminate|reflexivity]. }
  assert (HhEQ : Ascii.eqb h EQ = false).
  { destruct (Ascii.eqb_spec h EQ) as [->|]; [discriminate|reflexivity]. }
  replace (l ++ EQ :: h :: LF :: rest) with ((l ++ [EQ; h]) ++ LF :: rest)
    by now rewrite <- app_assoc.
  rewrite splitLines_app_LF
    by (rewrite existsb_app, Hl; cbn [existsb]; rewrite HhLF; reflexivity).
  cbn [map concat]. f_equal.
  replace (unescape l ++ ascii_of_N v :: concat (map (fun l0 => decodeLine (prepareLine l0)) (splitLines rest)))
    with ((unescape l ++ [ascii_of_N v]) ++ concat (map (fun l0 => decodeLine (prepareLine l0)) (splitLines rest)))
    by now rewrite <- app_assoc.
  f_equal.
  unfold prepareLine.
  replace (l ++ [EQ; h]) with ((l ++ [EQ]) ++ [h]) by now rewrite <- app_assoc.
  assert (Hcut : existsb (Ascii.eqb h) [CR; LF] = false).
  { cbn [existsb]. rewrite HhCR.
    destruct (Ascii.eqb_spec h LF) as [->|]; [discriminate|reflexivity]. }
  rewrite TrimRight_snoc_keep by exact Hcut.
  pose proof (suffix_EQ_softBreak ((l ++ [EQ]) ++ [h])) as Hs.
  unfold softBreak in Hs. rewrite rev_app_distr in Hs. cbn [rev app] in Hs.
  rewrite HhEQ in Hs. rewrite Hs.
  rewrite <- !app_assoc. cbn [app].
  rewrite (decodeLine_app _ _ _ (Nat.le_refl _) Hok).
  cbn [decodeLine]. rewrite Ascii.eqb_refl.
  unfold Sscanf_02X. rewrite Hh. reflexivity.
Qed.

Lemma decodeQuotedPrintable_short_escape_witness :
  decodeQuotedPrintable (str (bytes "a" ++ EQ :: "4"%char :: LF :: bytes "b"))
  = str (bytes "a" ++ ascii_of_N 4 :: bytes ("b" +:+ String LF "")).
Proof.
  apply (decodeQuotedPrintable_short_escape (bytes "a") (bytes "b") "4"%char 4);
    reflexivity.
Defined.

(* ===================================================================== *)
(** * Further properties: session commands and submission                 *)
(* ===================================================================== *)

Lemma step_backend s c : backend (step s c) = backend s.
Proof.
  destruct c as [mech identity user pass| | |]; cbn; try reflexivity.
  unfold Auth. destruct (negb (String.eqb mech sasl_Plain)); [reflexivity|].
  unfold plainAuthenticator.
  destruct (negb (String.eqb user (username (backend s)))
            || negb (String.eqb pass (password (backend s)))); reflexivity.
Qed.

Lemma run_cons s c cs : run s (c :: cs) = run (step s c) cs.
Proof. reflexivity. Qed.

Lemma run_backend cs : forall s, backend (run s cs) = backend s.
Proof.
  induction cs as [|c cs IH]; intros s; [reflexivity|].
  now rewrite run_cons, IH, step_backend.
Qed.

Lemma run_app s cs1 cs2 : run s (cs1 ++ cs2) = run (run s cs1) cs2.
Proof. unfold run. apply fold_left_app. Qed.

Lemma run_rcpts rs : forall s,
  to (run s (map CmdRcpt rs)) = to s ++ rs
  /\ from (run s (map CmdRcpt rs)) = from s
  /\ authenticated (run s (map CmdRcpt rs)) = authenticated s.
Proof.
  induction rs as [|r rs IH]; intros s.
  - cbn. now rewrite app_nil_r.
  - cbn [map]. rewrite run_cons.
    destruct (IH (step s (CmdRcpt r))) as (-> & -> & ->). cbn.
    now rewrite <- app_assoc.
Qed.

(** X5: whatever came before on the connection, after a reset followed by
    recipient declarations the recipient list holds exactly the addresses
    declared since the reset, in the order given and with repetitions kept,
    and the sender address is empty. *)
Theorem run_reset_then_rcpts (s : Session) (cs : list Command) (rs : list string) :
  let s' := run s (cs ++ CmdReset :: map CmdRcpt rs) in
  to s' = rs /\ from s' = "" /\ backend s' = backend s.
Proof.
  intros s'. subst s'. split; [|split].
  - rewrite run_app, run_cons.
    now destruct (run_rcpts rs (step (run s cs) CmdReset)) as (-> & _).
  - rewrite run_app, run_cons.
    now destruct (run_rcpts rs (step (run s cs) CmdReset)) as (_ & -> & _).
  - apply run_backend.
Qed.

Lemma step_authenticated s c :
  authenticated (step s c) = authenticated s || accepts (backend s) c.
Proof.
  destruct c as [mech identity user pass| | |]; cbn [step accepts];
    try (cbn; now rewrite orb_false_r).
  unfold Auth.
  destruct (String.eqb mech sasl_Plain); cbn [negb andb];
    [|now rewrite orb_false_r].
  unfold plainAuthenticator.
  destruct (String.eqb user (username (backend s))),
           (String.eqb pass (password (backend s))); cbn;
    now rewrite ?orb_false_r, ?orb_true_r.
Qed.

(** X6: on a connection the authenticated flag is set exactly when it was
    set at the start or some [AUTH] command used the supported mechanism
    with the user name and password of the backend; no other command sets
    it, a failed authentication does not, and nothing clears it. *)
Theorem run_authenticated (cs : list Command) (s : Session) :
  authenticated (run s cs)
  = authenticated s || existsb (accepts (backend s)) cs.
Proof.
  revert s. induction cs as [|c cs IH]; intros s.
  - cbn. now rewrite orb_false_r.
  - rewrite run_cons. cbn [existsb].
    rewrite IH, step_authenticated, step_backend. now rewrite orb_assoc.
Qed.

(** X7: the submission does not look at the sender address nor at the
    authenticated flag: two sessions with the same backend and the same
    recipients submit a message in the same way. *)
Theorem Data_ignores_sender_and_auth {lib : MailLib} (s1 s2 : Session) (r : Reader) :
  backend s1 = backend s2 -> to s1 = to s2 -> Data s1 r = Data s2 r.
Proof. intros Hb Ht. unfold Data. now rewrite Hb, Ht. Qed.

Lemma Data_ignores_sender_and_auth_witness :
  Data (lib := TestLib) twoRcpt plainMessage
  = Data (lib := TestLib)
      (run (NewSession testBackend)
           [CmdAuth "PLAIN" "" "user" "secret"; CmdMail "me@example.com";
            CmdRcpt "alice@example.com"; CmdRcpt "bob@example.com"])
      plainMessage.
Proof. apply Data_ignores_sender_and_auth; reflexivity. Defined.

Lemma wrapSendError_None err : wrapSendError err = None <-> err = None.
Proof. destruct err; cbn; split; congruence. Qed.

(** X8: a submission calls the Graph client at most once, and it returns
    no error exactly when it made a call and the client accepted it. *)
Theorem Data_outcome {lib : MailLib} (s : Session) (r : Reader) :
  (length (snd (Data s r)) <= 1)%nat
  /\ (fst (Data s r) = None
      <-> exists call, snd (Data s r) = [call]
                       /\ graphClient (backend s) call = None).
Proof.
  destruct (ReadMessage r) as [msg|e] eqn:Hr.
  - rewrite (Data_parsed s r msg Hr).
    destruct (ccOf msg) as [|c cc]; [destruct (to s) as [|to0 others]|];
      cbn [fst snd length].
    + split; [lia|]. split; [discriminate|]. intros (call & Hc & _). discriminate.
    + split; [lia|]. rewrite wrapSendError_None. split.
      * intros H. eexists. split; [reflexivity|exact H].
      * intros (call & Hc & H). now injection Hc as <-.
    + split; [lia|]. rewrite wrapSendError_None. split.
      * intros H. eexists. split; [reflexivity|exact H].
      * intros (call & Hc & H). now injection Hc as <-.
  - unfold Data. rewrite Hr. cbn. split; [lia|].
    split; [discriminate|]. intros (call & Hc & _). discriminate.
Qed.

(** X9: for a message that is not multipart and whose body can be read,
    the extraction succeeds.  When the Content-Type header does not parse
    the body is returned as it is, whatever the transfer encoding says, and
    is not HTML; otherwise the transfer encoding is undone and the body is
    HTML exactly when the media type starts with text/html. *)
Theorem extractBody_single_part {lib : MailLib} (msg : Message) (body : string) :
  ReadAll (Body msg) = Ok body ->
  (forall mt params e,
     ParseMediaType (Get (Header msg) "Content-Type") = (mt, params, Some e) ->
     extractBody msg = Ok (body, false))
  /\ (forall mt params,
        ParseMediaType (Get (Header msg) "Content-Type") = (mt, params, None) ->
        HasPrefix mt "multipart/" = false ->
        extractBody msg
        = Ok (decodeTransfer (Get (Header msg) "Content-Transfer-Encoding") body,
              HasPrefix mt "text/html")).
Proof.
  intros Hb. unfold extractBody. split.
  - intros mt params e ->. now rewrite Hb.
  - intros mt params -> Hm. now rewrite Hm, Hb.
Qed.

(** A base64 body without a Content-Type header. *)
Lemma extractBody_single_part_witness :
  extractBody (lib := TestLib)
    (parsed (input ["Content-Transfer-Encoding: base64"; ""; "SGVsbG8="]))
  = Ok (text ["SGVsbG8="], false).
Proof.
  apply (proj1 (extractBody_single_part (lib := TestLib)
                  (parsed (input ["Content-Transfer-Encoding: base64"; ""; "SGVsbG8="]))
                  (text ["SGVsbG8="]) ltac:(vm_compute; reflexivity))
               "" ∅ "mime: no media type").
  vm_compute. reflexivity.
Defined.

Lemma b64quanta_length alphabet n :
  forall l out, (length l <= n)%nat -> b64quanta alphabet l = Some out ->
    (length l mod 4 = 0)%nat.
Proof.
  induction n as [n IH] using lt_wf_ind. intros l out Hn Hq.
  destruct l as [|c1 [|c2 [|c3 [|c4 rest]]]]; try discriminate; [reflexivity|].
  cbn [b64quanta] in Hq.
  destruct (b64index alphabet c1); [|discriminate].
  destruct (b64index alphabet c2); [|discriminate].
  assert (Hrest : rest = [] \/ exists out', b64quanta alphabet rest = Some out').
  { destruct (b64index alphabet c3); [destruct (b64index alphabet c4)|].
    - destruct (b64quanta alphabet rest) as [tl|]; [right; eauto|discriminate].
    - destruct rest; [now left|discriminate].
    - destruct rest; [now left|discriminate]. }
  destruct Hrest as [->|[out' Hout]]; [reflexivity|].
  cbn [length] in *.
  pose proof (IH (length rest) ltac:(lia) rest out' ltac:(lia) Hout) as Hm.
  replace (S (S (S (S (length rest))))) with (length rest + 1 * 4)%nat by lia.
  now rewrite Nat.Div0.mod_add.
Qed.

(** X10: a body marked base64 whose length, line breaks aside, is not a
    multiple of four is not decoded: the transfer decoding hands back the
    text as received. *)
Theorem decodeTransfer_base64_fallback {lib : MailLib} (encoding text : string) :
  EqualFold encoding "base64" = true ->
  (length (List.filter (fun c => negb (Ascii.eqb c CR || Ascii.eqb c LF)) (bytes text))
     mod 4 <> 0)%nat ->
  decodeTransfer encoding text = text.
Proof.
  intros He Hlen. unfold decodeTransfer. rewrite He.
  unfold StdEncoding_DecodeString.
  destruct (b64quanta encodeStd _) as [out|] eqn:Hq; [|reflexivity].
  exfalso. apply Hlen. eapply b64quanta_length; [apply Nat.le_refl|exact Hq].
Qed.

Lemma decodeTransfer_base64_fallback_witness :
  decodeTransfer (lib := TestLib) "BASE64" "SGVsbG8" = "SGVsbG8".
Proof.
  apply (decodeTransfer_base64_fallback (lib := TestLib)).
  - reflexivity.
  - vm_compute. discriminate.
Defined.

(** X20: a [Cc] header that does not parse into addresses is dropped
    without an error: the message goes through the single-recipient send to
    the first recipient, as if it had no [Cc] header. *)
Theorem Data_unparsable_cc {lib : MailLib} (s : Session) (r : Reader)
        (msg : Message) (e : error) (to0 : string) (others : list string) :
  ReadMessage r = Ok msg ->
  ParseAddressList (Get (Header msg) "Cc") = Err e ->
  to s = to0 :: others ->
  let call := SendMail to0 (decodeHeader (Get (Header msg) "Subject"))
                       (fst (bodyOf msg)) (snd (bodyOf msg)) in
  Data s r = (wrapSendError (graphClient (backend s) call), [call]).
Proof.
  intros Hr Hcc Hto. rewrite (Data_parsed s r msg Hr).
  assert (Hno : ccOf msg = []).
  { unfold ccOf. rewrite Hcc. now destruct (negb _). }
  rewrite Hno, Hto. reflexivity.
Qed.

Lemma Data_unparsable_cc_witness :
  Data (lib := TestLib) twoRcpt badCcMessage
  = (None, [SendMail "alice@example.com" "hi" (text ["hello"]) false]).
Proof.
  assert (Hr : ReadMessage (MailLib := TestLib) badCcMessage = Ok (parsed badCcMessage))
    by (vm_compute; reflexivity).
  apply (Data_unparsable_cc (lib := TestLib) twoRcpt badCcMessage _
           "mail: unsupported address form" "alice@example.com" ["bob@example.com"] Hr);
    reflexivity.
Defined.

(* ===================================================================== *)
(** * Further properties: token expiry and the token cache                *)
(* ===================================================================== *)

Local Open Scope Z_scope.

Lemma IsExpired_later (tr : TokenResponse) (t t' : Time) :
  t <= t' -> IsExpired tr t = true -> IsExpired tr t' = true.
Proof.
  unfold IsExpired, After, Add. intros Ht.
  destruct (IsZero (CachedAt tr)); [reflexivity|].
  rewrite !Z.ltb_lt. lia.
Qed.

(** X11: expiry is monotone in time: a record that is expired at some
    instant is expired at every later instant, and one that is not expired
    was not expired at any earlier instant. *)
Theorem IsExpired_monotone (tr : TokenResponse) (t t' : Time) :
  t <= t' ->
  (IsExpired tr t = true -> IsExpired tr t' = true)
  /\ (IsExpired tr t' = false -> IsExpired tr t = false).
Proof.
  intros Ht. split; [now apply IsExpired_later|].
  intros H'. destruct (IsExpired tr t) eqn:He; [|reflexivity].
  rewrite (IsExpired_later tr t t' Ht He) in H'. discriminate.
Qed.

Lemma IsExpired_monotone_witness :
  let tr := {| AccessToken := "a"; TokenType := "Bearer"; ExpiresIn := 3600;
               RefreshToken := "r"; Scope := "s"; CachedAt := 1000 * Second |} in
  IsExpired tr (6000 * Second) = true.
Proof.
  intros tr.
  apply (proj1 (IsExpired_monotone tr (5000 * Second) (6000 * Second)
                  ltac:(vm_compute; discriminate))).
  reflexivity.
Defined.

(** X12: the remaining validity is never negative, it is zero for a record
    without [cachedAt], and for a record that is not expired it is at least
    the 300 seconds of the buffer. *)
Theorem RemainingValidity_bounds (tr : TokenResponse) (now : Time) :
  0 <= RemainingValidity tr now
  /\ (CachedAt tr = 0 -> RemainingValidity tr now = 0)
  /\ (IsExpired tr now = false -> 300 * Second <= RemainingValidity tr now).
Proof.
  unfold RemainingValidity, IsExpired, IsZero, Until, Sub, After, Add.
  rewrite seconds_buffer.
  set (e := CachedAt tr + seconds (ExpiresIn tr)).
  split; [|split].
  - destruct (CachedAt tr =? 0); [lia|].
    destruct ((minDuration <=? e - now) && (e - now <=? maxDuration)).
    + destruct (Z.ltb_spec (e - now) 0); lia.
    + destruct (e <? now); reflexivity || discriminate.
  - intros ->. reflexivity.
  - destruct (CachedAt tr =? 0); [discriminate|].
    rewrite Z.ltb_ge. intros He. unfold Second in *.
    destruct (Z.leb_spec minDuration (e - now)) as [Hmin|Hmin];
      destruct (Z.leb_spec (e - now) maxDuration) as [Hmax|Hmax]; cbn [andb].
    + destruct (Z.ltb_spec (e - now) 0); lia.
    + destruct (Z.ltb_spec e now); [lia|]. vm_compute. discriminate.
    + unfold minDuration in Hmin. lia.
    + unfold minDuration in Hmin. lia.
Qed.

Lemma RemainingValidity_bounds_witness :
  let tr := {| AccessToken := "a"; TokenType := "Bearer"; ExpiresIn := 3600;
               RefreshToken := "r"; Scope := "s"; CachedAt := 1000 * Second |} in
  300 * Second <= RemainingValidity tr (4000 * Second).
Proof.
  intros tr.
  apply (proj2 (proj2 (RemainingValidity_bounds tr (4000 * Second)))).
  reflexivity.
Defined.

Local Close Scope Z_scope.

(** X13: a record that [LoadToken] returns is the one stored in the cache
    file, it carries a [cachedAt] and it is not expired at the time of the
    load. *)
Theorem LoadToken_sound {json : JsonLib} (tcm : TokenCacheManager) (fs : FileSystem)
        (now : Time) (token : TokenResponse) :
  LoadToken tcm fs now = Ok token ->
  IsExpired token now = false
  /\ CachedAt token <> 0%Z
  /\ exists data perm,
       files fs !! filePath tcm = Some (data, perm)
       /\ Unmarshal data = Ok token.
Proof.
  unfold LoadToken, ReadFile. intros H.
  destruct (decide (filePath tcm ∈ denied fs)); [discriminate|].
  destruct (files fs !! filePath tcm) as [[data perm]|] eqn:Hf; [|discriminate].
  destruct (Unmarshal data) as [tok|] eqn:Hu; [|discriminate].
  destruct (IsExpired tok now) eqn:He; [discriminate|].
  injection H as <-. split; [exact He|]. split; [|eauto].
  intros H0. unfold IsExpired in He. rewrite H0 in He. discriminate.
Qed.

Lemma LoadToken_sound_witness :
  let stamped :=
    snd (fst (SaveToken (json := TestJson) cachePath emptyDisk sampleToken savedAt)) in
  IsExpired stamped loadedAt = false /\ CachedAt stamped <> 0%Z.
Proof.
  intros stamped.
  destruct (LoadToken_sound (json := TestJson) cachePath savedDisk loadedAt stamped
              ltac:(vm_compute; reflexivity)) as (H1 & H2 & _).
  split; assumption.
Defined.

(** X14: [SaveToken] stamps the caller's record with the time of the save
    even when it fails.  When marshalling fails or the cache file cannot be
    opened, the file system is left as it was and an error is returned.
    Once the file is opened it has its former mode if it existed and the
    mode 0600 less the bits of the umask if it was created, and it holds a
    prefix of the marshalled record (possibly nothing): the whole record
    whenever [SaveToken] returns no error. *)
Theorem SaveToken_effect {json : JsonLib} (tcm : TokenCacheManager) (fs : FileSystem)
        (token : TokenResponse) (now : Time) :
  let fs' := fst (fst (SaveToken tcm fs token now)) in
  let stamped := snd (fst (SaveToken tcm fs token now)) in
  let err := snd (SaveToken tcm fs token now) in
  (CachedAt stamped = now /\ AccessToken stamped = AccessToken token
   /\ RefreshToken stamped = RefreshToken token /\ Scope stamped = Scope token
   /\ TokenType stamped = TokenType token /\ ExpiresIn stamped = ExpiresIn token)
  /\ (forall e, MarshalIndent stamped = Err e -> fs' = fs /\ err = Some e)
  /\ (filePath tcm ∈ denied fs -> fs' = fs /\ err <> None)
  /\ (forall data, MarshalIndent stamped = Ok data -> filePath tcm ∉ denied fs ->
      exists n,
        files fs' !! filePath tcm
        = Some (str (firstn n (bytes data)),
                match files fs !! filePath tcm with
                | Some (_, p) => p
                | None => N.ldiff 384 (umask fs)
                end)
        /\ (err = None -> firstn n (bytes data) = bytes data)).
Proof.
  cbn zeta. rewrite SaveToken_cases. cbn zeta.
  set (stamped := {| AccessToken := AccessToken token; CachedAt := now |}).
  destruct (MarshalIndent stamped) as [data|e] eqn:Hm.
  - destruct (decide (filePath tcm ∈ denied fs)) as [Hd|Hd]; cbn [fst snd].
    + split; [repeat split|]. split; [intros e He; rewrite He in Hm; discriminate|].
      split; [intros _; split; [reflexivity|discriminate]|].
      intros data' _ Hnd. contradiction.
    + split; [repeat split|]. split; [intros e He; rewrite He in Hm; discriminate|].
      split; [intros Hd'; contradiction|].
      intros data' Hm' _. rewrite Hm' in Hm. injection Hm as ->.
      cbn [files]. rewrite lookup_insert_eq, <- length_bytes.
      destruct (short fs !! filePath tcm) as [n|] eqn:Hs.
      * exists n. split; [reflexivity|].
        destruct (Nat.ltb (length (firstn n (bytes data))) (length (bytes data)))
          eqn:Hlt; [discriminate|].
        intros _. now apply firstn_whole.
      * exists (length (bytes data)). rewrite firstn_all. split; reflexivity.
  - cbn [fst snd]. split; [repeat split|].
    split; [intros e' He; rewrite He in Hm; injection Hm as ->; split; reflexivity|].
    split; [intros _; split; [reflexivity|discriminate]|].
    intros data Hm'. rewrite Hm' in Hm. discriminate.
Qed.

Lemma SaveToken_effect_witness :
  exists n data,
    MarshalIndent (JsonLib := TestJson)
      (snd (fst (SaveToken (json := TestJson) cachePath fullDisk sampleToken
                   savedAt))) = Ok data
    /\ files (fst (fst (SaveToken (json := TestJson) cachePath fullDisk
                          sampleToken savedAt)))
         !! "/tmp/token.json" = Some (str (firstn n (bytes data)), 384%N).
Proof.
  destruct (MarshalIndent (JsonLib := TestJson)
              (snd (fst (SaveToken (json := TestJson) cachePath fullDisk
                           sampleToken savedAt)))) as [data|e] eqn:Hm.
  - destruct (proj2 (proj2 (proj2 (SaveToken_effect (json := TestJson) cachePath fullDisk
                                     sampleToken savedAt)))
                data Hm ltac:(vm_compute; discriminate)) as (n & Hf & _).
    exists n, data. split; [reflexivity|]. exact Hf.
  - vm_compute in Hm. discriminate.
Defined.

(** X15: [ClearCache] fails exactly when the operating system refuses the
    removal; a missing cache file is no error.  After a successful clear the
    cache file is gone, every other file is as before, a load fails
    whatever the codec and the time, and clearing again changes nothing. *)
Theorem ClearCache_spec {json : JsonLib} (tcm : TokenCacheManager) (fs : FileSystem) :
  let fs' := fst (ClearCache tcm fs) in
  (snd (ClearCache tcm fs) = None <-> filePath tcm ∉ denied fs)
  /\ (snd (ClearCache tcm fs) <> None -> fs' = fs)
  /\ (snd (ClearCache tcm fs) = None ->
      files fs' = delete (filePath tcm) (files fs)
      /\ denied fs' = denied fs
      /\ (forall now, exists e, LoadToken tcm fs' now = Err e)
      /\ ClearCache tcm fs' = (fs', None)).
Proof.
  cbn zeta. unfold ClearCache, Remove.
  destruct (decide (filePath tcm ∈ denied fs)) as [Hd|Hd].
  - cbn. split; [split; [discriminate|contradiction]|].
    split; [reflexivity|]. intros H. discriminate.
  - destruct (files fs !! filePath tcm) as [f|] eqn:Hf; cbn [IsNotExist negb fst snd].
    + split; [split; auto|]. split; [intros H; now contradiction H|].
      intros _. cbn [files denied].
      split; [reflexivity|]. split; [reflexivity|]. split.
      * intros now. unfold LoadToken, ReadFile. cbn [files denied].
        destruct (decide (filePath tcm ∈ denied fs)); [contradiction|].
        rewrite lookup_delete_eq. eauto.
      * destruct (decide (filePath tcm ∈ denied fs)); [contradiction|].
        rewrite lookup_delete_eq. reflexivity.
    + change (IsNotExist errNotExist) with true. cbn [negb fst snd].
      split; [split; auto|]. split; [reflexivity|]. intros _.
      split; [symmetry; now apply delete_id|]. split; [reflexivity|]. split.
      * intros now. unfold LoadToken, ReadFile.
        destruct (decide (filePath tcm ∈ denied fs)); [contradiction|].
        rewrite Hf. eauto.
      * destruct (decide (filePath tcm ∈ denied fs)); [contradiction|].
        rewrite Hf. reflexivity.
Qed.

Lemma ClearCache_spec_witness :
  exists e,
    LoadToken (json := TestJson) cachePath
      (fst (ClearCache cachePath
              (fst (fst (SaveToken (json := TestJson) cachePath emptyDisk
                           sampleToken savedAt)))))
      loadedAt = Err e.
Proof.
  apply (proj2 (proj2 (ClearCache_spec (json := TestJson) cachePath
           (fst (fst (SaveToken (json := TestJson) cachePath emptyDisk
                        sampleToken savedAt)))))).
  vm_compute. reflexivity.
Defined.

(* ===================================================================== *)
(** * Further properties: obtaining the access token                      *)
(* ===================================================================== *)

Lemma GetAccessToken_hit {json : JsonLib} (tcm : TokenCacheManager) (fs : FileSystem)
      (nowLoad nowCheck nowSave : Time) (acquire : result TokenResponse)
      (cached : TokenResponse) :
  LoadToken tcm fs nowLoad = Ok cached ->
  IsExpired cached nowCheck = false ->
  GetAccessToken tcm fs nowLoad nowCheck nowSave acquire
  = (Ok (AccessToken cached), fs, false).
Proof. intros Hl He. unfold GetAccessToken. now rewrite Hl, He. Qed.

(** X16: when the cache file holds a record that is not expired at the
    second expiry test (made after the load), [GetAccessToken] returns the
    cached access token, acquires nothing and leaves the file system as it
    is, whatever an acquisition would have given. *)
Theorem GetAccessToken_cache_hit {json : JsonLib}
        (tcm : TokenCacheManager) (fs : FileSystem)
        (nowLoad nowCheck nowSave : Time) (acquire : result TokenResponse)
        (data : string) (perm : N) (cached : TokenResponse) :
  filePath tcm ∉ denied fs ->
  files fs !! filePath tcm = Some (data, perm) ->
  Unmarshal data = Ok cached ->
  (nowLoad <= nowCheck)%Z ->
  IsExpired cached nowCheck = false ->
  GetAccessToken tcm fs nowLoad nowCheck nowSave acquire
  = (Ok (AccessToken cached), fs, false).
Proof.
  intros Hd Hf Hu Ht He. apply GetAccessToken_hit; [|assumption].
  apply (LoadToken_from_file tcm fs nowLoad data perm); try assumption.
  destruct (IsExpired cached nowLoad) eqn:Hl; [|reflexivity].
  rewrite (IsExpired_later cached nowLoad nowCheck Ht Hl) in He. discriminate.
Qed.

Lemma GetAccessToken_cache_hit_witness :
  GetAccessToken (json := TestJson) cachePath savedDisk loadedAt loadedAt loadedAt
    (Err "not asked")
  = (Ok "eyJ0eXAi.abc", savedDisk, false).
Proof.
  eapply (GetAccessToken_cache_hit (json := TestJson) cachePath savedDisk
            loadedAt loadedAt loadedAt (Err "not asked")
            _ 384%N
            {| AccessToken := "eyJ0eXAi.abc"; TokenType := "Bearer";
               ExpiresIn := 3600%Z; RefreshToken := "0.AAA-bbb";
               Scope := "User.Read Mail.Send"; CachedAt := savedAt |}).
  - vm_compute. discriminate.
  - vm_compute. reflexivity.
  - vm_compute. reflexivity.
  - vm_compute. discriminate.
  - vm_compute. reflexivity.
Defined.

(** X17: [GetAccessToken] acquires a new token exactly when the cache
    yields no record that is unexpired at the second test; it fails exactly
    when it had to acquire and the acquisition failed; and when the
    acquisition succeeds the new access token is returned whether or not
    the record could be saved. *)
Theorem GetAccessToken_outcome {json : JsonLib}
        (tcm : TokenCacheManager) (fs : FileSystem)
        (nowLoad nowCheck nowSave : Time) (acquire : result TokenResponse) :
  let out := GetAccessToken tcm fs nowLoad nowCheck nowSave acquire in
  (snd out = false
   <-> exists cached, LoadToken tcm fs nowLoad = Ok cached
                      /\ IsExpired cached nowCheck = false)
  /\ ((exists e, fst (fst out) = Err e)
      <-> snd out = true /\ exists e, acquire = Err e)
  /\ (forall token, snd out = true -> acquire = Ok token ->
        fst (fst out) = Ok (AccessToken token)
        /\ snd (fst out) = fst (fst (SaveToken tcm fs token nowSave))).
Proof.
  cbn zeta. unfold GetAccessToken.
  assert (Hfresh :
    forall out,
      out = match acquire with
            | Err e => (Err ("トークン取得エラー: " +:+ e), fs, true)
            | Ok token =>
                let '(fs', _, _) := SaveToken tcm fs token nowSave in
                (Ok (AccessToken token), fs', true)
            end ->
      snd out = true
      /\ ((exists e, fst (fst out) = Err e) <-> exists e, acquire = Err e)
      /\ (forall token, acquire = Ok token ->
            fst (fst out) = Ok (AccessToken token)
            /\ snd (fst out) = fst (fst (SaveToken tcm fs token nowSave)))).
  { intros out ->. destruct acquire as [token|e].
    - destruct (SaveToken tcm fs token nowSave) as [[fs' st] err] eqn:Hs.
      cbn [fst snd]. split; [reflexivity|]. split.
      + split; intros [e H]; discriminate.
      + intros token' H. injection H as <-. rewrite Hs. split; reflexivity.
    - cbn [fst snd]. split; [reflexivity|]. split; [split; eauto|].
      intros token H. discriminate. }
  destruct (LoadToken tcm fs nowLoad) as [cached|e0] eqn:Hl.
  - destruct (IsExpired cached nowCheck) eqn:He; cbn [negb].
    + destruct (Hfresh _ eq_refl) as (Ha & Hb & Hc).
      split; [|split].
      * rewrite Ha. split; [discriminate|].
        intros (c & Hc' & He'). injection Hc' as <-. congruence.
      * rewrite Hb. tauto.
      * intros token _. apply Hc.
    + cbn [fst snd]. split; [|split].
      * split; eauto.
      * split; [intros [e H]; discriminate|intros [H _]; discriminate].
      * intros token H. discriminate.
  - destruct (Hfresh _ eq_refl) as (Ha & Hb & Hc).
    split; [|split].
    + rewrite Ha. split; [discriminate|]. intros (c & Hc' & _). discriminate.
    + rewrite Hb. tauto.
    + intros token _. apply Hc.
Qed.

Lemma GetAccessToken_outcome_witness :
  fst (fst (GetAccessToken (json := TestJson) cachePath lockedDisk
              savedAt savedAt savedAt (Ok sampleToken)))
  = Ok "eyJ0eXAi.abc".
Proof.
  apply (proj2 (proj2 (GetAccessToken_outcome (json := TestJson) cachePath lockedDisk
                         savedAt savedAt savedAt (Ok sampleToken))) sampleToken);
    reflexivity.
Defined.

(** X18: after a call that acquired a token and could save it, with a
    codec that reads back the record it wrote, a later call made while the
    record is not expired returns the same access token from the cache,
    without a new acquisition. *)
Theorem GetAccessToken_then_cached {json : JsonLib}
        (tcm : TokenCacheManager) (fs : FileSystem)
        (l1 c1 s1 l2 c2 s2 : Time) (token : TokenResponse)
        (acquire2 : result TokenResponse) :
  let out1 := GetAccessToken tcm fs l1 c1 s1 (Ok token) in
  let stamped := snd (fst (SaveToken tcm fs token s1)) in
  snd out1 = true ->
  snd (SaveToken tcm fs token s1) = None ->
  (forall data, MarshalIndent stamped = Ok data -> Unmarshal data = Ok stamped) ->
  (l2 <= c2)%Z ->
  IsExpired stamped c2 = false ->
  GetAccessToken tcm (snd (fst out1)) l2 c2 s2 acquire2
  = (Ok (AccessToken token), snd (fst out1), false).
Proof.
  cbn zeta. intros Hacq Hsave Hjson Ht He.
  assert (Hfs : snd (fst (GetAccessToken tcm fs l1 c1 s1 (Ok token)))
                = fst (fst (SaveToken tcm fs token s1))).
  { revert Hacq. unfold GetAccessToken.
    destruct (LoadToken tcm fs l1) as [cached|e0].
    - destruct (IsExpired cached c1); cbn [negb].
      + destruct (SaveToken tcm fs token s1) as [[fs' st] err]. reflexivity.
      + cbn. discriminate.
    - destruct (SaveToken tcm fs token s1) as [[fs' st] err]. reflexivity. }
  rewrite Hfs.
  destruct (SaveToken_success tcm fs token s1 Hsave) as (data & Hm & Hd & Hden & Hf).
  replace (AccessToken token)
    with (AccessToken (snd (fst (SaveToken tcm fs token s1))))
    by now rewrite SaveToken_stamped.
  apply GetAccessToken_hit; [|exact He].
  eapply LoadToken_from_file.
  - rewrite Hden. exact Hd.
  - rewrite Hf. apply lookup_insert_eq.
  - apply Hjson, Hm.
  - destruct (IsExpired _ l2) eqn:Hl; [|reflexivity].
    rewrite (IsExpired_later _ l2 c2 Ht Hl) in He. discriminate.
Qed.

Lemma GetAccessToken_then_cached_witness :
  GetAccessToken (json := TestJson) cachePath
    (snd (fst (GetAccessToken (json := TestJson) cachePath emptyDisk
                 savedAt savedAt savedAt (Ok sampleToken))))
    loadedAt loadedAt loadedAt (Err "not asked")
  = (Ok "eyJ0eXAi.abc",
     snd (fst (GetAccessToken (json := TestJson) cachePath emptyDisk
                 savedAt savedAt savedAt (Ok sampleToken))),
     false).
Proof.
  apply (GetAccessToken_then_cached (json := TestJson) cachePath emptyDisk
           savedAt savedAt savedAt loadedAt loadedAt loadedAt sampleToken
           (Err "not asked")).
  - vm_compute. reflexivity.
  - vm_compute. reflexivity.
  - intros data Hm. vm_compute in Hm. injection Hm as <-. vm_compute. reflexivity.
  - vm_compute. discriminate.
  - vm_compute. reflexivity.
Defined.

(* ===================================================================== *)
(** * Further properties: the generated password                          *)
(* ===================================================================== *)

(** Padding only adds characters after the unpadded encoding. *)
Lemma b64encode_padded alphabet p n :
  forall src, (length src <= n)%nat ->
    exists k, b64encode alphabet [p] src = b64encode alphabet [] src ++ repeat p k.
Proof.
  induction n as [n IH] using lt_wf_ind. intros src Hn.
  destruct src as [|a [|b [|c rest]]].
  - exists 0%nat. reflexivity.
  - exists 2%nat. reflexivity.
  - exists 1%nat. reflexivity.
  - destruct (IH (length rest) ltac:(cbn in Hn; lia) rest ltac:(lia)) as [k Hk].
    exists k. cbn [b64encode]. rewrite Hk. reflexivity.
Qed.

(** The first [4 k] characters encode the first [3 k] bytes. *)
Lemma b64encode_firstn alphabet pad k :
  forall src, (3 * k <= length src)%nat ->
    firstn (4 * k) (b64encode alphabet pad src)
    = b64encode alphabet [] (firstn (3 * k) src).
Proof.
  induction k as [|k IH]; intros src Hlen; [reflexivity|].
  destruct src as [|a [|b [|c rest]]]; cbn [length] in Hlen; try lia.
  replace (4 * S k)%nat with (S (S (S (S (4 * k))))) by lia.
  replace (3 * S k)%nat with (S (S (S (3 * k)))) by lia.
  cbn [b64encode firstn]. rewrite IH by lia. reflexivity.
Qed.

Lemma length_rand_Read n source : length (rand_Read n source) = n.
Proof.
  unfold rand_Read. rewrite length_firstn, length_app, repeat_length. lia.
Qed.

(** X19: [generatePassword] never panics on its slice: it returns a
    password of exactly the requested length, made of characters of the
    URL-safe alphabet only (no padding character), or the error of the
    random source.  A password of length 32 is the unpadded encoding of the
    first 24 random bytes: the last 8 of the 32 bytes read are not used. *)
Theorem generatePassword_spec (n : nat) (data : list ascii) :
  (exists pw, generatePassword n (Ok data) = Some (Ok pw)
              /\ String.length pw = n
              /\ Forall (fun c => In c encodeURL) (bytes pw)
              /\ (n = 32%nat ->
                  pw = RawURLEncoding_EncodeToString (firstn 24 (rand_Read 32 data))))
  /\ (forall e, generatePassword n (Err e) = Some (Err e)).
Proof.
  split; [|reflexivity].
  unfold generatePassword, sliceTo, URLEncoding_EncodeToString.
  set (b := rand_Read n data).
  destruct (b64encode_padded encodeURL EQ _ b (Nat.le_refl _)) as [k Hk].
  assert (Hraw : (n <= length (b64encode encodeURL [] b))%nat).
  { rewrite (length_b64encode_raw _ _ _ (Nat.le_refl _)).
    unfold b. rewrite length_rand_Read.
    apply Nat.div_le_lower_bound; lia. }
  rewrite length_str, bytes_str, Hk, length_app.
  destruct (Nat.leb_spec n (length (b64encode encodeURL [] b) + length (repeat EQ k)));
    [|lia].
  eexists. split; [reflexivity|]. rewrite take_app_le by exact Hraw.
  split; [|split].
  - rewrite length_str, length_firstn. lia.
  - rewrite bytes_str. apply Forall_take.
    eapply b64encode_raw_alphabet; [reflexivity|apply Nat.le_refl].
  - intros ->. unfold RawURLEncoding_EncodeToString. f_equal.
    apply (b64encode_firstn encodeURL [] 8). unfold b.
    rewrite length_rand_Read. lia.
Qed.

Lemma generatePassword_spec_witness :
  generatePassword 32 (Ok rfc7636Octets)
  = Some (Ok (RawURLEncoding_EncodeToString (firstn 24 rfc7636Octets))).
Proof.
  destruct (proj1 (generatePassword_spec 32 rfc7636Octets))
    as (pw & Hg & _ & _ & Hpw).
  rewrite Hg, (Hpw eq_refl). reflexivity.
Defined.
